(** * ZenTask: task store, recurrence calculator, view engine, reminder tick

    A shallow embedding of the client-side logic of [App.tsx] and
    [types.ts]: the recurrence calculator [calculateNextDueDate], the
    task-store handlers [handleToggleTask], [handleUpdateTask] and
    [handleDeleteTask], the derived list [filteredTasks] and the
    reminder interval callback.

    Conventions of the embedding.
    - A date string (the ISO strings of [dueDate], [deadline],
      [Reminder.time]) is represented by the time value it denotes, in
      milliseconds since the epoch, so [new Date(s)] and
      [d.toISOString()] are the identity; an absent (or empty, hence
      falsy) string is [None].  Time values stay in the range where the
      host's TimeClip is the identity.
    - The host's local time zone has a constant offset [LocalTZA] from
      UTC (no daylight-saving transitions).
    - Strings are sequences of 8-bit characters. *)

From Stdlib Require Import ZArith Lia.
From stdpp Require Import base gmap sets list strings pretty sorting.

Local Open Scope Z_scope.

(** ** The host's calendar (ECMAScript, Date objects) *)

Module JSDate.

Definition msPerDay : Z := 86400000.

Definition Day (t : Z) : Z := t / msPerDay.
Definition TimeWithinDay (t : Z) : Z := t mod msPerDay.

Definition DayFromYear (y : Z) : Z :=
  365 * (y - 1970) + (y - 1969) / 4 - (y - 1901) / 100 + (y - 1601) / 400.

Definition leap (y : Z) : bool :=
  if negb (y mod 4 =? 0) then false
  else if negb (y mod 100 =? 0) then true
  else if negb (y mod 400 =? 0) then false
  else true.


(** The largest [y] whose first day is not after the day of [t]: a
    candidate from the mean year length, adjusted by at most one. *)
Definition YearFromTime (t : Z) : Z :=
  let d := Day t in
  let y := 1970 + (d * 400) / 146097 in
  if DayFromYear (y + 1) <=? d then y + 1
  else if DayFromYear y <=? d then y
  else y - 1.

Definition InLeapYear (t : Z) : Z := if leap (YearFromTime t) then 1 else 0.

Definition DayWithinYear (t : Z) : Z := Day t - DayFromYear (YearFromTime t).

(** Day number within the year of the first day of month [m] (0..11). *)
Definition monthStart (l : Z) (m : Z) : Z :=
  if m =? 0 then 0
  else if m =? 1 then 31
  else if m =? 2 then 59 + l
  else if m =? 3 then 90 + l
  else if m =? 4 then 120 + l
  else if m =? 5 then 151 + l
  else if m =? 6 then 181 + l
  else if m =? 7 then 212 + l
  else if m =? 8 then 243 + l
  else if m =? 9 then 273 + l
  else if m =? 10 then 304 + l
  else 334 + l.

Definition MonthFromTime (t : Z) : Z :=
  let d := DayWithinYear t in
  let l := InLeapYear t in
  if d <? 31 then 0
  else if d <? 59 + l then 1
  else if d <? 90 + l then 2
  else if d <? 120 + l then 3
  else if d <? 151 + l then 4
  else if d <? 181 + l then 5
  else if d <? 212 + l then 6
  else if d <? 243 + l then 7
  else if d <? 273 + l then 8
  else if d <? 304 + l then 9
  else if d <? 334 + l then 10
  else 11.

Definition DateFromTime (t : Z) : Z :=
  DayWithinYear t - monthStart (InLeapYear t) (MonthFromTime t) + 1.

Definition WeekDay (t : Z) : Z := (Day t + 4) mod 7.

(** [MakeDay(year, month, date)]: the day number of the first of the
    month, plus [date - 1]; months outside 0..11 carry into the year. *)
Definition MakeDay (year month date : Z) : Z :=
  let ym := year + month / 12 in
  let mn := month mod 12 in
  DayFromYear ym + monthStart (if leap ym then 1 else 0) mn + date - 1.

Definition MakeDate (day time : Z) : Z := day * msPerDay + time.

Section LocalTime.
Variable LocalTZA : Z.

Definition LocalTime (t : Z) : Z := t + LocalTZA.
Definition UTC (t : Z) : Z := t - LocalTZA.

Definition getDate (t : Z) : Z := DateFromTime (LocalTime t).
Definition getMonth (t : Z) : Z := MonthFromTime (LocalTime t).
Definition getFullYear (t : Z) : Z := YearFromTime (LocalTime t).
Definition getDay (t : Z) : Z := WeekDay (LocalTime t).

Definition setDate (t dt : Z) : Z :=
  let lt := LocalTime t in
  UTC (MakeDate (MakeDay (YearFromTime lt) (MonthFromTime lt) dt)
                (TimeWithinDay lt)).

Definition setMonth (t m : Z) : Z :=
  let lt := LocalTime t in
  UTC (MakeDate (MakeDay (YearFromTime lt) m (DateFromTime lt))
                (TimeWithinDay lt)).

Definition setFullYear (t y : Z) : Z :=
  let lt := LocalTime t in
  UTC (MakeDate (MakeDay y (MonthFromTime lt) (DateFromTime lt))
                (TimeWithinDay lt)).
End LocalTime.


End JSDate.

(** ** Data model ([types.ts]) *)

Local Open Scope string_scope.
Local Open Scope list_scope.
Local Open Scope Z_scope.

(** The double-quote character of the log-message templates. *)
Definition dquote : string := String (Ascii.Ascii false true false false false true false false) EmptyString.

Module Priority.
Inductive t := None | Low | Medium | High.
#[global] Instance priority_eq_dec : EqDecision t.
Proof. solve_decision. Defined.
(** The string value of the enum member. *)
Definition value (p : t) : string :=
  match p with
  | None => "None" | Low => "Low" | Medium => "Medium" | High => "High"
  end.
End Priority.

Module Recurrence.
Inductive t := None | Daily | Weekdays | Weekly | Monthly | Yearly | Custom.
#[global] Instance recurrence_eq_dec : EqDecision t.
Proof. solve_decision. Defined.
End Recurrence.

Inductive RecurrenceUnit := days | weeks | months | years.
#[global] Instance RecurrenceUnit_eq_dec : EqDecision RecurrenceUnit.
Proof. solve_decision. Defined.

Record RecurrenceCustom := { amount : Z; unit : RecurrenceUnit }.

Module SubTask.
Record t := {
  id : string;
  title : string;
  completed : bool;
  dueDate : option Z }.
End SubTask.

Module TaskLog.
Record t := {
  id : string;
  timestamp : Z;
  message : string }.
End TaskLog.

Module Label.
Record t := {
  id : string;
  name : string;
  color : string }.
End Label.

Module Reminder.
Record t := {
  id : string;
  time : Z;
  fired : bool }.
End Reminder.

Inductive AttachmentType := file | link.

Module Attachment.
Record t := {
  id : string;
  name : string;
  type : AttachmentType;
  url : string;
  mimeType : option string;
  size : option Z }.
End Attachment.

(** An array held by reference.  [Task.labelIds] is the one array the
    handlers sort in place, so it is kept in a store of arrays and the
    task holds its address: the object spread [{...task}] copies the
    address, and two tasks may share one array.  A reference with no
    array in the store stands for an absent [labelIds] field.  All other
    arrays of a task are only read or replaced by fresh arrays, and are
    plain values. *)
Definition ArrayRef := nat.

Module Task.
Record t := {
  id : string;
  listId : string;
  title : string;
  description : option string;
  completed : bool;
  dueDate : option Z;
  deadline : option Z;
  reminders : list Reminder.t;
  estimate : option string;
  actualTime : option string;
  priority : Priority.t;
  subtasks : list SubTask.t;
  recurrence : Recurrence.t;
  recurrenceCustom : option RecurrenceCustom;
  labelIds : ArrayRef;
  attachments : list Attachment.t;
  color : option string;
  logs : list TaskLog.t;
  createdAt : Z }.

(** [{...task, completed, logs}] *)
Definition with_completed_logs (task : t) (c : bool) (l : list TaskLog.t) : t :=
  {| id := id task; listId := listId task; title := title task;
     description := description task; completed := c;
     dueDate := dueDate task; deadline := deadline task;
     reminders := reminders task; estimate := estimate task;
     actualTime := actualTime task; priority := priority task;
     subtasks := subtasks task; recurrence := recurrence task;
     recurrenceCustom := recurrenceCustom task; labelIds := labelIds task;
     attachments := attachments task; color := color task;
     logs := l; createdAt := createdAt task |}.

(** [{...task, logs}] *)
Definition with_logs (task : t) (l : list TaskLog.t) : t :=
  with_completed_logs task (completed task) l.

(** [{...task, reminders}] *)
Definition with_reminders (task : t) (rs : list Reminder.t) : t :=
  {| id := id task; listId := listId task; title := title task;
     description := description task; completed := completed task;
     dueDate := dueDate task; deadline := deadline task;
     reminders := rs; estimate := estimate task;
     actualTime := actualTime task; priority := priority task;
     subtasks := subtasks task; recurrence := recurrence task;
     recurrenceCustom := recurrenceCustom task; labelIds := labelIds task;
     attachments := attachments task; color := color task;
     logs := logs task; createdAt := createdAt task |}.
End Task.

Module TaskList.
Record t := {
  id : string;
  name : string;
  color : string;
  icon : string;
  isDefault : option bool }.
End TaskList.

(** A notification shown to the user: [new Notification(title, {body})]. *)
Module Notification.
Record t := {
  title : string;
  body : string }.
End Notification.

Inductive SortOption := smart | dueDate | priority | added | alphabetical.

(** Truthiness of an optional string: absent and empty are falsy. *)
Definition truthy (s : option string) : bool :=
  match s with
  | Some s => bool_decide (s <> EmptyString)
  | None => false
  end.

(** [s || d] for an optional string. *)
Definition orElse (s : option string) (d : string) : string :=
  match s with
  | Some s => if bool_decide (s <> EmptyString) then s else d
  | None => d
  end.

(** ** The host: identifiers, the clock, the store of arrays *)

(** [crypto.randomUUID()] and the clock ([Date.now()], [new Date()])
    yield the next element of two sequences the host chooses. *)
Record World := {
  uuid_of : nat -> string;
  uuid_next : nat;
  clock_of : nat -> Z;
  clock_next : nat;
  arrays : gmap ArrayRef (list string) }.

Definition M (A : Type) : Type := World -> A * World.

#[global] Instance M_ret : MRet M := fun A x w => (x, w).
#[global] Instance M_bind : MBind M :=
  fun A B f m w => let '(x, w') := m w in f x w'.

Definition randomUUID : M string := fun w =>
  (uuid_of w (uuid_next w),
   {| uuid_of := uuid_of w; uuid_next := S (uuid_next w);
      clock_of := clock_of w; clock_next := clock_next w;
      arrays := arrays w |}).

Definition Date_now : M Z := fun w =>
  (clock_of w (clock_next w),
   {| uuid_of := uuid_of w; uuid_next := uuid_next w;
      clock_of := clock_of w; clock_next := S (clock_next w);
      arrays := arrays w |}).

(** [Array.prototype.sort(cmp)]: stable, and for a consistent comparator
    the sorted arrangement; as a stable insertion sort. *)
Fixpoint sort_insert {A} (cmp : A -> A -> Z) (x : A) (l : list A) : list A :=
  match l with
  | [] => [x]
  | y :: l' => if cmp x y <=? 0 then x :: y :: l' else y :: sort_insert cmp x l'
  end.

Definition Array_sort {A} (cmp : A -> A -> Z) (l : list A) : list A :=
  foldr (sort_insert cmp) [] l.

(** The default comparator of [sort()]: strings by code units. *)
Definition compareStrings (a b : string) : Z :=
  match String.compare a b with
  | Lt => -1
  | Eq => 0
  | Gt => 1
  end.

(** [a || []] for a label array held at reference [r]. *)
Definition readLabels (r : ArrayRef) (store : gmap ArrayRef (list string)) :
    list string :=
  default [] (store !! r).

(** [(t.labelIds || []).sort()]: sorts the array in place and yields it;
    an absent array yields a fresh empty one and leaves the store as it is. *)
Definition sortLabels (r : ArrayRef) : M (list string) := fun w =>
  (Array_sort compareStrings (readLabels r (arrays w)),
   {| uuid_of := uuid_of w; uuid_next := uuid_next w;
      clock_of := clock_of w; clock_next := clock_next w;
      arrays := alter (Array_sort compareStrings) r (arrays w) |}).

(** [for (const x of l) s = f(x, s)] with effects. *)
Fixpoint forEach {A S} (f : A -> S -> M S) (l : list A) (s : S) : M S :=
  match l with
  | [] => mret s
  | x :: l' => s' ← f x s; forEach f l' s'
  end.

(** ** The application ([App.tsx]) *)

Section App.
Import JSDate.

(** Offset of the local time zone, in milliseconds. *)
Variable LocalTZA : Z.
(** [Date.prototype.toLocaleDateString()] of the host's locale. *)
Variable toLocaleDateString : Z -> string.
(** [String.prototype.localeCompare] of the host's locale. *)
Variable localeCompare : string -> string -> Z.

(** *** Recurrence calculator *)

(** The [do ... while] of the Weekdays rule, with the number of rounds
    it ran; [fuel] bounds the rounds. *)
Fixpoint weekdaysLoop (fuel : nat) (date : Z) : option (Z * nat) :=
  match fuel with
  | O => None
  | S fuel' =>
      let date := setDate LocalTZA date (getDate LocalTZA date + 1) in
      if (getDay LocalTZA date =? 0) || (getDay LocalTZA date =? 6)
      then match weekdaysLoop fuel' date with
           | Some (d, n) => Some (d, S n)
           | None => None
           end
      else Some (date, 1%nat)
  end.

(** Rounds allowed to the Weekdays loop: a week of days.  The loop stops
    within three ([weekdaysLoop_rounds]), so the bound is never hit. *)
Definition weekdaysFuel : nat := 7.

Definition calculateNextDueDate (currentDateStr : option Z)
    (recurrence : Recurrence.t) (custom : option RecurrenceCustom) : option Z :=
  match currentDateStr with
  | None => None
  | Some date =>
      Some
        match recurrence with
        | Recurrence.Daily => setDate LocalTZA date (getDate LocalTZA date + 1)
        | Recurrence.Weekly => setDate LocalTZA date (getDate LocalTZA date + 7)
        | Recurrence.Monthly =>
            setMonth LocalTZA date (getMonth LocalTZA date + 1)
        | Recurrence.Yearly =>
            setFullYear LocalTZA date (getFullYear LocalTZA date + 1)
        | Recurrence.Weekdays =>
            match weekdaysLoop weekdaysFuel date with
            | Some (d, _) => d
            | None => date
            end
        | Recurrence.Custom =>
            match custom with
            | Some c =>
                let date :=
                  if bool_decide (unit c = days)
                  then setDate LocalTZA date (getDate LocalTZA date + amount c)
                  else date in
                let date :=
                  if bool_decide (unit c = weeks)
                  then setDate LocalTZA date
                         (getDate LocalTZA date + amount c * 7)
                  else date in
                let date :=
                  if bool_decide (unit c = months)
                  then setMonth LocalTZA date (getMonth LocalTZA date + amount c)
                  else date in
                let date :=
                  if bool_decide (unit c = years)
                  then setFullYear LocalTZA date
                         (getFullYear LocalTZA date + amount c)
                  else date in
                date
            | None => date
            end
        | Recurrence.None => date
        end
  end.

(** *** Task store: toggle *)

Definition handleToggleTask (id : string) (prev : list Task.t) :
    M (list Task.t) :=
  match list_find (fun t => Task.id t = id) prev with
  | None => mret prev
  | Some (taskIndex, task) =>
      let newCompletedStatus := negb (Task.completed task) in
      logId ← randomUUID;
      logTime ← Date_now;
      let updatedTask :=
        Task.with_completed_logs task newCompletedStatus
          (Task.logs task ++
           [ {| TaskLog.id := logId;
                TaskLog.timestamp := logTime;
                TaskLog.message :=
                  if newCompletedStatus then "Completed task"
                  else "Uncompleted task" |} ]) in
      let newTasks := <[taskIndex := updatedTask]> prev in
      if newCompletedStatus
         && bool_decide (Task.recurrence task <> Recurrence.None)
      then
        anchor ← match Task.dueDate task with
                 | Some d => mret (Some d)
                 | None => now ← Date_now; mret (Some now)
                 end;
        match calculateNextDueDate anchor (Task.recurrence task)
                (Task.recurrenceCustom task) with
        | Some nextDate =>
            nextId ← randomUUID;
            nextLogId ← randomUUID;
            nextLogTime ← Date_now;
            created ← Date_now;
            let nextTask :=
              {| Task.id := nextId;
                 Task.listId := Task.listId task;
                 Task.title := Task.title task;
                 Task.description := Task.description task;
                 Task.completed := false;
                 Task.dueDate := Some nextDate;
                 Task.deadline := Task.deadline task;
                 Task.reminders := [];
                 Task.estimate := Task.estimate task;
                 Task.actualTime := Task.actualTime task;
                 Task.priority := Task.priority task;
                 Task.subtasks := Task.subtasks task;
                 Task.recurrence := Task.recurrence task;
                 Task.recurrenceCustom := Task.recurrenceCustom task;
                 Task.labelIds := Task.labelIds task;
                 Task.attachments := [];
                 Task.color := Task.color task;
                 Task.logs :=
                   [ {| TaskLog.id := nextLogId;
                        TaskLog.timestamp := nextLogTime;
                        TaskLog.message :=
                          "Recurring task created from '" +:+ Task.title task
                          +:+ "'" |} ];
                 Task.createdAt := created |} in
            mret (nextTask :: newTasks)
        | None => mret newTasks
        end
      else mret newTasks
  end.

(** *** Task store: update *)

(** [addLog] of [handleUpdateTask]: pushes onto the local [newLogs]. *)
Definition addLog (timestamp : Z) (msg : string) (newLogs : list TaskLog.t) :
    M (list TaskLog.t) :=
  id ← randomUUID;
  mret (newLogs ++ [ {| TaskLog.id := id;
                        TaskLog.timestamp := timestamp;
                        TaskLog.message := msg |} ]).

Definition quoted (s : string) : string := dquote +:+ s +:+ dquote.

Definition diffTitle (t u : Task.t) (ts : Z) (newLogs : list TaskLog.t) :
    M (list TaskLog.t) :=
  if bool_decide (Task.title t <> Task.title u)
  then addLog ts ("Renamed to " +:+ quoted (Task.title u)) newLogs
  else mret newLogs.

Definition diffDescription (t u : Task.t) (ts : Z) (newLogs : list TaskLog.t) :
    M (list TaskLog.t) :=
  if bool_decide (Task.description t <> Task.description u)
  then
    if negb (truthy (Task.description t)) && truthy (Task.description u)
    then addLog ts "Added description" newLogs
    else if truthy (Task.description t) && negb (truthy (Task.description u))
    then addLog ts "Removed description" newLogs
    else addLog ts "Updated description" newLogs
  else mret newLogs.

Definition diffDueDate (t u : Task.t) (ts : Z) (newLogs : list TaskLog.t) :
    M (list TaskLog.t) :=
  if bool_decide (Task.dueDate t <> Task.dueDate u)
  then
    match Task.dueDate u with
    | Some d =>
        let dateStr := toLocaleDateString d in
        addLog ts (match Task.dueDate t with
                   | Some _ => "Rescheduled to " +:+ dateStr
                   | None => "Set due date to " +:+ dateStr
                   end) newLogs
    | None => addLog ts "Removed due date" newLogs
    end
  else mret newLogs.

Definition diffDeadline (t u : Task.t) (ts : Z) (newLogs : list TaskLog.t) :
    M (list TaskLog.t) :=
  if bool_decide (Task.deadline t <> Task.deadline u)
  then
    match Task.deadline u with
    | Some d =>
        let dateStr := toLocaleDateString d in
        addLog ts (match Task.deadline t with
                   | Some _ => "Changed deadline to " +:+ dateStr
                   | None => "Set deadline to " +:+ dateStr
                   end) newLogs
    | None => addLog ts "Removed deadline" newLogs
    end
  else mret newLogs.

Definition diffPriority (t u : Task.t) (ts : Z) (newLogs : list TaskLog.t) :
    M (list TaskLog.t) :=
  if bool_decide (Task.priority t <> Task.priority u)
  then addLog ts ("Changed priority from " +:+ Priority.value (Task.priority t)
                  +:+ " to " +:+ Priority.value (Task.priority u)) newLogs
  else mret newLogs.

(** [lists.find(l => l.id === id)?.name || 'Inbox'] *)
Definition listName (lists : list TaskList.t) (id : string) : string :=
  orElse (TaskList.name <$>
          List.find (fun l => bool_decide (TaskList.id l = id)) lists) "Inbox".

Definition diffList (lists : list TaskList.t) (t u : Task.t) (ts : Z)
    (newLogs : list TaskLog.t) : M (list TaskLog.t) :=
  if bool_decide (Task.listId t <> Task.listId u)
  then
    let oldList := listName lists (Task.listId t) in
    let newList := listName lists (Task.listId u) in
    addLog ts ("Moved from " +:+ oldList +:+ " to " +:+ newList) newLogs
  else mret newLogs.

Definition diffEstimate (t u : Task.t) (ts : Z) (newLogs : list TaskLog.t) :
    M (list TaskLog.t) :=
  if bool_decide (Task.estimate t <> Task.estimate u)
  then
    if truthy (Task.estimate u)
    then addLog ts ("Set estimate to " +:+ default EmptyString (Task.estimate u))
           newLogs
    else addLog ts "Removed estimate" newLogs
  else mret newLogs.

Definition diffActualTime (t u : Task.t) (ts : Z) (newLogs : list TaskLog.t) :
    M (list TaskLog.t) :=
  if bool_decide (Task.actualTime t <> Task.actualTime u)
  then
    if truthy (Task.actualTime u)
    then addLog ts ("Logged actual time: "
                    +:+ default EmptyString (Task.actualTime u)) newLogs
    else addLog ts "Removed actual time log" newLogs
  else mret newLogs.

(** [labels.find(l => l.id === id)?.name || 'Unknown'] *)
Definition labelName (labels : list Label.t) (id : string) : string :=
  orElse (Label.name <$>
          List.find (fun l => bool_decide (Label.id l = id)) labels) "Unknown".

(** Both label arrays are sorted where they are, the stored one first;
    [JSON.stringify] is one-to-one on arrays of strings, so comparing the
    two renderings compares the sorted arrays. *)
Definition diffLabels (labels : list Label.t) (t u : Task.t) (ts : Z)
    (newLogs : list TaskLog.t) : M (list TaskLog.t) :=
  oldLabels ← sortLabels (Task.labelIds t);
  newLabels ← sortLabels (Task.labelIds u);
  if bool_decide (oldLabels <> newLabels)
  then
    let added :=
      List.filter (fun id => negb (bool_decide (id ∈ oldLabels))) newLabels in
    let removed :=
      List.filter (fun id => negb (bool_decide (id ∈ newLabels))) oldLabels in
    newLogs ← forEach (fun id =>
        addLog ts ("Added label " +:+ quoted (labelName labels id)))
      added newLogs;
    forEach (fun id =>
        addLog ts ("Removed label " +:+ quoted (labelName labels id)))
      removed newLogs
  else mret newLogs.

Definition diffAttachments (t u : Task.t) (ts : Z) (newLogs : list TaskLog.t) :
    M (list TaskLog.t) :=
  let oldAttachments := Task.attachments t in
  let newAttachments := Task.attachments u in
  if bool_decide (length oldAttachments <> length newAttachments)
  then
    let added :=
      List.filter (fun a => negb (existsb (fun oa =>
          bool_decide (Attachment.id oa = Attachment.id a)) oldAttachments))
        newAttachments in
    let removed :=
      List.filter (fun a => negb (existsb (fun na =>
          bool_decide (Attachment.id na = Attachment.id a)) newAttachments))
        oldAttachments in
    newLogs ← forEach (fun a =>
        addLog ts ("Added attachment " +:+ quoted (Attachment.name a)))
      added newLogs;
    forEach (fun a =>
        addLog ts ("Removed attachment " +:+ quoted (Attachment.name a)))
      removed newLogs
  else mret newLogs.

(** [new Map(subtasks.map(s => [s.id, s]))]: a later entry replaces an
    earlier one with the same key. *)
Definition subtasksMap (l : list SubTask.t) : gmap string SubTask.t :=
  foldl (fun m s => <[SubTask.id s := s]> m) ∅ l.

Definition diffSubtask (oldSubtasksMap : gmap string SubTask.t) (ts : Z)
    (ns : SubTask.t) (newLogs : list TaskLog.t) : M (list TaskLog.t) :=
  match oldSubtasksMap !! SubTask.id ns with
  | None =>
      addLog ts ("Added subtask: " +:+ quoted (SubTask.title ns)) newLogs
  | Some os =>
      newLogs ←
        (if bool_decide (SubTask.completed os <> SubTask.completed ns)
         then addLog ts ((if SubTask.completed ns then "Completed"
                          else "Uncompleted")
                         +:+ " subtask: " +:+ quoted (SubTask.title ns))
                newLogs
         else mret newLogs);
      newLogs ←
        (if bool_decide (SubTask.title os <> SubTask.title ns)
         then addLog ts ("Renamed subtask to " +:+ quoted (SubTask.title ns))
                newLogs
         else mret newLogs);
      if bool_decide (SubTask.dueDate os <> SubTask.dueDate ns)
      then
        match SubTask.dueDate ns, SubTask.dueDate os with
        | Some _, None =>
            addLog ts ("Set due date for subtask "
                       +:+ quoted (SubTask.title ns)) newLogs
        | None, Some _ =>
            addLog ts ("Removed due date from subtask "
                       +:+ quoted (SubTask.title ns)) newLogs
        | Some _, Some _ =>
            addLog ts ("Rescheduled subtask " +:+ quoted (SubTask.title ns))
              newLogs
        | None, None => mret newLogs
        end
      else mret newLogs
  end.

Definition diffSubtasks (t u : Task.t) (ts : Z) (newLogs : list TaskLog.t) :
    M (list TaskLog.t) :=
  let oldSubtasks := Task.subtasks t in
  let newSubtasks := Task.subtasks u in
  let oldSubtasksMap := subtasksMap oldSubtasks in
  let newSubtasksMap := subtasksMap newSubtasks in
  newLogs ← forEach (diffSubtask oldSubtasksMap ts) newSubtasks newLogs;
  forEach (fun os newLogs =>
      match newSubtasksMap !! SubTask.id os with
      | None =>
          addLog ts ("Deleted subtask: " +:+ quoted (SubTask.title os)) newLogs
      | Some _ => mret newLogs
      end)
    oldSubtasks newLogs.

(** The entries [addLog] pushed by the end of the comparison of the
    stored task [t] with the snapshot [updatedTask]. *)
Definition diffLogs (lists : list TaskList.t) (labels : list Label.t)
    (t updatedTask : Task.t) (timestamp : Z) : M (list TaskLog.t) :=
  newLogs ← diffTitle t updatedTask timestamp [];
  newLogs ← diffDescription t updatedTask timestamp newLogs;
  newLogs ← diffDueDate t updatedTask timestamp newLogs;
  newLogs ← diffDeadline t updatedTask timestamp newLogs;
  newLogs ← diffPriority t updatedTask timestamp newLogs;
  newLogs ← diffList lists t updatedTask timestamp newLogs;
  newLogs ← diffEstimate t updatedTask timestamp newLogs;
  newLogs ← diffActualTime t updatedTask timestamp newLogs;
  newLogs ← diffLabels labels t updatedTask timestamp newLogs;
  newLogs ← diffAttachments t updatedTask timestamp newLogs;
  diffSubtasks t updatedTask timestamp newLogs.

(** The body of the [map] callback for a task whose id matches. *)
Definition updateStored (lists : list TaskList.t) (labels : list Label.t)
    (updatedTask t : Task.t) : M Task.t :=
  timestamp ← Date_now;
  newLogs ← diffLogs lists labels t updatedTask timestamp;
  let previousLogIds : gset string :=
    list_to_set (TaskLog.id <$> Task.logs t) in
  let logsFromModal :=
    List.filter (fun l => negb (bool_decide (TaskLog.id l ∈ previousLogIds)))
      (Task.logs updatedTask) in
  let meaningfulLogsFromModal :=
    List.filter (fun l =>
        bool_decide (TaskLog.message l <> "Updated task details"))
      logsFromModal in
  let finalLogs := Task.logs t ++ meaningfulLogsFromModal ++ newLogs in
  mret (Task.with_logs updatedTask finalLogs).

Definition handleUpdateTask (lists : list TaskList.t) (labels : list Label.t)
    (updatedTask : Task.t) (prev : list Task.t) : M (list Task.t) :=
  mapM (fun t =>
      if bool_decide (Task.id t = Task.id updatedTask)
      then updateStored lists labels updatedTask t
      else mret t)
    prev.

(** *** Task store: delete *)

Definition handleDeleteTask (id : string) (prev : list Task.t) : list Task.t :=
  List.filter (fun t => bool_decide (Task.id t <> id)) prev.

(** *** View filter and sort engine *)

(** The clock is read once per derivation: [now] stands for every
    [new Date()] of the filter callbacks. *)
Definition isToday (now : Z) (dateString : option Z) : bool :=
  match dateString with
  | None => false
  | Some d =>
      let today := now in
      (getDate LocalTZA d =? getDate LocalTZA today)
      && (getMonth LocalTZA d =? getMonth LocalTZA today)
      && (getFullYear LocalTZA d =? getFullYear LocalTZA today)
  end.

Definition isNext7Days (now : Z) (dateString : option Z) : bool :=
  match dateString with
  | None => false
  | Some d =>
      let today := now in
      let nextWeek := setDate LocalTZA today (getDate LocalTZA today + 7) in
      (today <=? d) && (d <=? nextWeek)
  end.

Definition lowerChar (c : Ascii.ascii) : Ascii.ascii :=
  let n := Ascii.nat_of_ascii c in
  if ((65 <=? n) && (n <=? 90))%nat then Ascii.ascii_of_nat (n + 32) else c.

Fixpoint toLowerCase (s : string) : string :=
  match s with
  | EmptyString => EmptyString
  | String c s' => String (lowerChar c) (toLowerCase s')
  end.

(** [s.includes(q)] *)
Fixpoint includes (s q : string) : bool :=
  String.prefix q s
  || match s with
     | EmptyString => false
     | String _ s' => includes s' q
     end.

Definition prioOrder (p : Priority.t) : Z :=
  match p with
  | Priority.High => 3
  | Priority.Medium => 2
  | Priority.Low => 1
  | Priority.None => 0
  end.

(** Earliest due date first, dated before undated. *)
Definition compareDueDate (a b : Task.t) : Z :=
  match Task.dueDate a, Task.dueDate b with
  | Some x, Some y => x - y
  | Some _, None => -1
  | None, Some _ => 1
  | None, None => 0
  end.

(** The comparator given to [sort]. *)
Definition compareTasks (sortBy : SortOption) (a b : Task.t) : Z :=
  if negb (eqb (Task.completed a) (Task.completed b))
  then if Task.completed a then 1 else -1
  else
    match sortBy with
    | dueDate => compareDueDate a b
    | priority =>
        if negb (prioOrder (Task.priority b) =? prioOrder (Task.priority a))
        then prioOrder (Task.priority b) - prioOrder (Task.priority a)
        else 0
    | added => Task.createdAt b - Task.createdAt a
    | alphabetical => localeCompare (Task.title a) (Task.title b)
    | smart =>
        if negb (prioOrder (Task.priority b) =? prioOrder (Task.priority a))
        then prioOrder (Task.priority b) - prioOrder (Task.priority a)
        else compareDueDate a b
    end.

Definition filteredTasks (tasks : list Task.t) (labels : list Label.t)
    (store : gmap ArrayRef (list string)) (activeView searchQuery : string)
    (sortBy : SortOption) (now : Z) : list Task.t :=
  if bool_decide (activeView = "activity") then []
  else
    let filtered :=
      if bool_decide (activeView = "search")
      then
        if bool_decide (searchQuery <> EmptyString)
        then
          let lowerQ := toLowerCase searchQuery in
          List.filter (fun t =>
              includes (toLowerCase (Task.title t)) lowerQ
              || match Task.description t with
                 | Some d => includes (toLowerCase d) lowerQ
                 | None => false
                 end)
            tasks
        else tasks
      else
        let isLabelView :=
          existsb (fun l => bool_decide (Label.id l = activeView)) labels in
        if isLabelView
        then List.filter (fun t =>
                 bool_decide (activeView ∈ readLabels (Task.labelIds t) store)
                 && negb (Task.completed t))
               tasks
        else if bool_decide (activeView = "inbox")
        then List.filter (fun t =>
                 bool_decide (Task.listId t = "inbox")
                 && negb (Task.completed t))
               tasks
        else if bool_decide (activeView = "today")
        then List.filter (fun t =>
                 isToday now (Task.dueDate t) && negb (Task.completed t))
               tasks
        else if bool_decide (activeView = "next7")
        then List.filter (fun t =>
                 isNext7Days now (Task.dueDate t) && negb (Task.completed t))
               tasks
        else if bool_decide (activeView = "upcoming")
        then List.filter (fun t =>
                 match Task.dueDate t with
                 | Some d => (now <? d) && negb (Task.completed t)
                 | None => false
                 end)
               tasks
        else if bool_decide (activeView = "all")
        then tasks
        else List.filter (fun t =>
                 bool_decide (Task.listId t = activeView)
                 && negb (Task.completed t))
               tasks in
    Array_sort (compareTasks sortBy) filtered.

(** *** Reminder scheduler *)

(** The [map] callback of one tick: the task afterwards, whether it set
    [hasUpdates], and the notifications it raised. *)
Definition checkReminders (now : Z) (granted : bool) (task : Task.t) :
    Task.t * bool * list Notification.t :=
  if Task.completed task
     || bool_decide (length (Task.reminders task) = 0%nat)
  then (task, false, [])
  else
    let remindersToFire :=
      List.filter (fun r => negb (Reminder.fired r) && (Reminder.time r <=? now))
        (Task.reminders task) in
    if bool_decide (0 < length remindersToFire)%nat
    then
      (Task.with_reminders task
         (List.map (fun r =>
              if existsb (fun rt =>
                   bool_decide (Reminder.id rt = Reminder.id r)) remindersToFire
              then {| Reminder.id := Reminder.id r;
                      Reminder.time := Reminder.time r;
                      Reminder.fired := true |}
              else r)
            (Task.reminders task)),
       true,
       if granted
       then List.map (fun _ =>
                {| Notification.title := "Reminder: " +:+ Task.title task;
                   Notification.body := orElse (Task.description task)
                             "You have a task scheduled." |})
              remindersToFire
       else [])
    else (task, false, []).

(** One tick of the interval: the task collection afterwards and the
    notifications shown. *)
Definition reminderTick (now : Z) (granted : bool) (currentTasks : list Task.t) :
    list Task.t * list Notification.t :=
  let results := List.map (checkReminders now granted) currentTasks in
  let hasUpdates := existsb (fun r => snd (fst r)) results in
  let updatedTasks := List.map (fun r => fst (fst r)) results in
  (if hasUpdates then updatedTasks else currentTasks,
   concat (List.map snd results)).

End App.

(** ** Vocabulary of the statements *)

(** [Date.UTC(year, month, date)]: midnight UTC of a calendar day. *)
Definition Date_UTC (year month date : Z) : Z :=
  JSDate.MakeDate (JSDate.MakeDay year month date) 0.


(** The order a comparator induces: [a] may stand before [b]. *)
Definition cmp_le {A} (cmp : A -> A -> Z) (a b : A) : Prop := cmp a b <= 0.

(** The task [handleToggleTask] stores in place of [task]: completion
    flipped, one log entry appended, stamped with the next identifier
    and clock reading of [w]. *)
Definition toggledTask (task : Task.t) (w : World) : Task.t :=
  Task.with_completed_logs task (negb (Task.completed task))
    (Task.logs task ++
     [ {| TaskLog.id := uuid_of w (uuid_next w);
          TaskLog.timestamp := clock_of w (clock_next w);
          TaskLog.message :=
            if negb (Task.completed task) then "Completed task"
            else "Uncompleted task" |} ]).


(** The entries of the snapshot [u] that the merge keeps: those whose
    id is on no entry of the stored task [t], the placeholder message
    left out. *)
Definition keptLogs (t u : Task.t) : list TaskLog.t :=
  List.filter (fun l =>
      negb (existsb (fun l0 => bool_decide (TaskLog.id l0 = TaskLog.id l))
              (Task.logs t))
      && bool_decide (TaskLog.message l <> "Updated task details"))
    (Task.logs u).

(** The entries the comparison of [t] with [u] synthesizes when
    [handleUpdateTask] reaches [t] in the world [w]: it reads the clock
    once, then runs [diffLogs]. *)
Definition synthesizedLogs (toLocaleDateString : Z -> string)
    (lists : list TaskList.t) (labels : list Label.t) (t u : Task.t)
    (w : World) : list TaskLog.t :=
  fst (diffLogs toLocaleDateString lists labels t u (fst (Date_now w))
         (snd (Date_now w))).

(** A computation that leaves the store of arrays as it found it. *)
Definition keepsArrays {A} (m : M A) : Prop :=
  forall w, arrays (snd (m w)) = arrays w.

(** The attachments of [new] whose id is on no attachment of [old]. *)
Definition attachmentsNotIn (old new : list Attachment.t) : list Attachment.t :=
  List.filter (fun a =>
      negb (existsb (fun o => bool_decide (Attachment.id o = Attachment.id a))
              old))
    new.

(** In-place sorting of the label arrays at [rt] and [ru]. *)
Definition sortedAt (rt ru : ArrayRef) (store : gmap ArrayRef (list string)) :
    gmap ArrayRef (list string) :=
  alter (Array_sort compareStrings) ru
    (alter (Array_sort compareStrings) rt store).

(** [{...r, fired: true}] *)
Definition firedReminder (r : Reminder.t) : Reminder.t :=
  {| Reminder.id := Reminder.id r;
     Reminder.time := Reminder.time r;
     Reminder.fired := true |}.

(** A reminder that has not fired and whose time has come. *)
Definition dueUnfired (now : Z) (r : Reminder.t) : bool :=
  negb (Reminder.fired r) && (Reminder.time r <=? now).

(** The reminders of a task after its check: a reminder becomes fired
    when its id is that of a reminder of the task that is due and has
    not fired. *)
Definition checkedReminders (now : Z) (rs : list Reminder.t) : list Reminder.t :=
  List.map (fun r =>
      if existsb (fun rt => bool_decide (Reminder.id rt = Reminder.id r))
           (List.filter (dueUnfired now) rs)
      then firedReminder r
      else r)
    rs.

(** Ascending by due date, dated before undated. *)
Definition dueDate_le (a b : Task.t) : Prop :=
  match Task.dueDate a, Task.dueDate b with
  | Some x, Some y => x <= y
  | None, Some _ => False
  | _, None => True
  end.

(** ** Sample data *)

Definition sampleUUID (n : nat) : string :=
  "uuid-" +:+ String (Ascii.ascii_of_nat (97 + n)) EmptyString.

(** A host whose clock starts at 2023-11-14T22:13:20Z and advances one
    millisecond per reading; array 1 holds two label ids, unsorted. *)
Definition sampleWorld : World :=
  {| uuid_of := sampleUUID; uuid_next := 0;
     clock_of := fun n => 1700000000000 + Z.of_nat n; clock_next := 0;
     arrays := {[ 1%nat := ["urgent"; "design"] ]} |}.

(** A weekly task due 2024-01-01, not completed. *)
Definition weeklyTask : Task.t :=
  {| Task.id := "A"; Task.listId := "inbox"; Task.title := "Water plants";
     Task.description := None; Task.completed := false;
     Task.dueDate := Some (Date_UTC 2024 0 1); Task.deadline := None;
     Task.reminders := []; Task.estimate := None; Task.actualTime := None;
     Task.priority := Priority.None; Task.subtasks := [];
     Task.recurrence := Recurrence.Weekly; Task.recurrenceCustom := None;
     Task.labelIds := 1%nat; Task.attachments := []; Task.color := None;
     Task.logs := []; Task.createdAt := 1690000000000 |}.

(** A task that does not recur. *)
Definition plainTask : Task.t :=
  {| Task.id := "P"; Task.listId := "work"; Task.title := "File report";
     Task.description := Some "Quarterly"; Task.completed := false;
     Task.dueDate := None; Task.deadline := None;
     Task.reminders := []; Task.estimate := None; Task.actualTime := None;
     Task.priority := Priority.High; Task.subtasks := [];
     Task.recurrence := Recurrence.None; Task.recurrenceCustom := None;
     Task.labelIds := 2%nat; Task.attachments := []; Task.color := None;
     Task.logs := []; Task.createdAt := 1690000000001 |}.

(** A locale that writes a date as its day number since the epoch. *)
Definition sampleLocaleDate (t : Z) : string :=
  "day " +:+ pretty (JSDate.Day t).

Definition specPdf : Attachment.t :=
  {| Attachment.id := "att-1"; Attachment.name := "spec.pdf";
     Attachment.type := file; Attachment.url := "data:spec";
     Attachment.mimeType := Some "application/pdf";
     Attachment.size := Some 1024 |}.

Definition notesLink : Attachment.t :=
  {| Attachment.id := "att-2"; Attachment.name := "notes";
     Attachment.type := link; Attachment.url := "https://example.org/notes";
     Attachment.mimeType := None; Attachment.size := None |}.

Definition createdLog : TaskLog.t :=
  {| TaskLog.id := "log-1"; TaskLog.timestamp := 1690000000001;
     TaskLog.message := "Task created" |}.

(** The entry the detail modal appends to every snapshot it edits. *)
Definition placeholderLog : TaskLog.t :=
  {| TaskLog.id := "log-2"; TaskLog.timestamp := 1690000000500;
     TaskLog.message := "Updated task details" |}.

(** [{...task, title, attachments, logs}] *)
Definition editedTask (task : Task.t) (title : string)
    (attachments : list Attachment.t) (logs : list TaskLog.t) : Task.t :=
  {| Task.id := Task.id task; Task.listId := Task.listId task;
     Task.title := title; Task.description := Task.description task;
     Task.completed := Task.completed task; Task.dueDate := Task.dueDate task;
     Task.deadline := Task.deadline task; Task.reminders := Task.reminders task;
     Task.estimate := Task.estimate task;
     Task.actualTime := Task.actualTime task;
     Task.priority := Task.priority task; Task.subtasks := Task.subtasks task;
     Task.recurrence := Task.recurrence task;
     Task.recurrenceCustom := Task.recurrenceCustom task;
     Task.labelIds := Task.labelIds task; Task.attachments := attachments;
     Task.color := Task.color task; Task.logs := logs;
     Task.createdAt := Task.createdAt task |}.

(** The stored report task: one attachment, one log entry. *)
Definition reportTask : Task.t :=
  editedTask plainTask "File report" [specPdf] [createdLog].

(** A snapshot of it from the modal with the title changed. *)
Definition renamedReport : Task.t :=
  editedTask reportTask "File annual report" [specPdf]
    [createdLog; placeholderLog].

(** A snapshot of it from the modal in which the one attachment was
    removed and another one added before saving. *)
Definition swappedReport : Task.t :=
  editedTask reportTask "File report" [notesLink] [createdLog; placeholderLog].




(** A task with three reminders of distinct ids: fired, due, future. *)
Definition threeReminders : Task.t :=
  Task.with_reminders plainTask
    [ {| Reminder.id := "rem-1"; Reminder.time := 1; Reminder.fired := true |};
      {| Reminder.id := "rem-2"; Reminder.time := 5; Reminder.fired := false |};
      {| Reminder.id := "rem-3"; Reminder.time := 100;
         Reminder.fired := false |} ].

(** Three tasks to sort: Medium and due, High and undated, completed. *)
Definition mediumDue : Task.t :=
  {| Task.id := "M"; Task.listId := "inbox"; Task.title := "Call back";
     Task.description := None; Task.completed := false;
     Task.dueDate := Some (Date_UTC 2024 0 2); Task.deadline := None;
     Task.reminders := []; Task.estimate := None; Task.actualTime := None;
     Task.priority := Priority.Medium; Task.subtasks := [];
     Task.recurrence := Recurrence.None; Task.recurrenceCustom := None;
     Task.labelIds := 3%nat; Task.attachments := []; Task.color := None;
     Task.logs := []; Task.createdAt := 1690000000002 |}.

Definition doneTask : Task.t :=
  Task.with_completed_logs mediumDue true [].

Definition sortSample : list Task.t := [doneTask; mediumDue; plainTask].

(** ** Vocabulary of the further statements *)


(** The local calendar day a time value falls on, as a day number. *)
Definition localDay (LocalTZA t : Z) : Z :=
  JSDate.Day (JSDate.LocalTime LocalTZA t).




(** *** Task item ([TaskItem.tsx]) *)

(** [MakeTime(hour, min, sec, ms)] *)
Definition MakeTime (hour min sec ms : Z) : Z :=
  hour * 3600000 + min * 60000 + sec * 1000 + ms.

(** [d.setHours(hour, min, sec, ms)] *)
Definition setHours (LocalTZA t hour min sec ms : Z) : Z :=
  JSDate.UTC LocalTZA
    (JSDate.MakeDate (JSDate.Day (JSDate.LocalTime LocalTZA t))
       (MakeTime hour min sec ms)).

(** [isOverdue] of a task item, with [now] for its [new Date()]. *)
Definition isOverdue (LocalTZA now : Z) (task : Task.t) : bool :=
  match Task.dueDate task with
  | None => false
  | Some d =>
      if Task.completed task then false
      else
        let due := d in
        let today := setHours LocalTZA now 0 0 0 0 in
        due <? today
  end.

(** [hasActiveReminders] of a task item. *)
Definition hasActiveReminders (task : Task.t) : bool :=
  bool_decide (0 < length (Task.reminders task))%nat
  && existsb (fun r => negb (Reminder.fired r)) (Task.reminders task).

(** What the sort modes with a fixed key promise of an earlier task [a]
    and a later task [b] that agree on completion. *)
Definition modeOrder (sortBy : SortOption) (a b : Task.t) : Prop :=
  match sortBy with
  | dueDate => dueDate_le a b
  | priority => prioOrder (Task.priority b) <= prioOrder (Task.priority a)
  | added => Task.createdAt b <= Task.createdAt a
  | smart =>
      prioOrder (Task.priority b) <= prioOrder (Task.priority a)
      /\ (prioOrder (Task.priority a) = prioOrder (Task.priority b) ->
          dueDate_le a b)
  | alphabetical => True
  end.

(** The notification the tick raises for a reminder of [task]. *)
Definition notificationOf (task : Task.t) : Notification.t :=
  {| Notification.title := "Reminder: " +:+ Task.title task;
     Notification.body :=
       orElse (Task.description task) "You have a task scheduled." |}.

(** The reminders of [task] a tick at [now] finds due: none for a
    completed task. *)
Definition dueReminders (now : Z) (task : Task.t) : list Reminder.t :=
  if Task.completed task then []
  else List.filter (dueUnfired now) (Task.reminders task).

(** The snapshot [u] agrees with the stored task [t] on what
    [handleUpdateTask] compares besides the title: description, due
    date, deadline, priority, list, estimate, actual time, the members
    of the label arrays, the number of attachments, and the subtasks
    (whose ids are pairwise distinct). *)
Definition agreeBesidesTitle (t u : Task.t)
    (store : gmap ArrayRef (list string)) : Prop :=
  Task.description t = Task.description u
  /\ Task.dueDate t = Task.dueDate u
  /\ Task.deadline t = Task.deadline u
  /\ Task.priority t = Task.priority u
  /\ Task.listId t = Task.listId u
  /\ Task.estimate t = Task.estimate u
  /\ Task.actualTime t = Task.actualTime u
  /\ (forall id, id ∈ readLabels (Task.labelIds u) store
                 <-> id ∈ readLabels (Task.labelIds t) store)
  /\ length (Task.attachments t) = length (Task.attachments u)
  /\ Task.subtasks u = Task.subtasks t
  /\ NoDup (SubTask.id <$> Task.subtasks t).

(** The label ids of [new] that are not in [old]. *)
Definition labelsNotIn (old new : list string) : list string :=
  List.filter (fun id => negb (bool_decide (id ∈ old))) new.

(** ** The rest of the task store ([App.tsx]) *)

(** [Partial<Task>]: for each key, whether the object has it and with
    what value.  A key of a field the type makes optional may be present
    with the value [undefined] ([Some None]); the keys of the other
    fields, when present, carry a value. *)
Module PartialTask.
Record t := {
  id : option string;
  listId : option string;
  title : option string;
  description : option (option string);
  completed : option bool;
  dueDate : option (option Z);
  deadline : option (option Z);
  reminders : option (list Reminder.t);
  estimate : option (option string);
  actualTime : option (option string);
  priority : option Priority.t;
  subtasks : option (list SubTask.t);
  recurrence : option Recurrence.t;
  recurrenceCustom : option (option RecurrenceCustom);
  labelIds : option ArrayRef;
  attachments : option (list Attachment.t);
  color : option (option string);
  logs : option (list TaskLog.t);
  createdAt : option Z }.

(** [{}] *)
Definition empty : t :=
  {| id := None; listId := None; title := None; description := None;
     completed := None; dueDate := None; deadline := None; reminders := None;
     estimate := None; actualTime := None; priority := None; subtasks := None;
     recurrence := None; recurrenceCustom := None; labelIds := None;
     attachments := None; color := None; logs := None; createdAt := None |}.
End PartialTask.

(** [{...task, ...partial}] *)
Definition spreadPartial (task : Task.t) (partial : PartialTask.t) : Task.t :=
  {| Task.id := default (Task.id task) (PartialTask.id partial);
     Task.listId := default (Task.listId task) (PartialTask.listId partial);
     Task.title := default (Task.title task) (PartialTask.title partial);
     Task.description :=
       default (Task.description task) (PartialTask.description partial);
     Task.completed :=
       default (Task.completed task) (PartialTask.completed partial);
     Task.dueDate := default (Task.dueDate task) (PartialTask.dueDate partial);
     Task.deadline :=
       default (Task.deadline task) (PartialTask.deadline partial);
     Task.reminders :=
       default (Task.reminders task) (PartialTask.reminders partial);
     Task.estimate :=
       default (Task.estimate task) (PartialTask.estimate partial);
     Task.actualTime :=
       default (Task.actualTime task) (PartialTask.actualTime partial);
     Task.priority :=
       default (Task.priority task) (PartialTask.priority partial);
     Task.subtasks :=
       default (Task.subtasks task) (PartialTask.subtasks partial);
     Task.recurrence :=
       default (Task.recurrence task) (PartialTask.recurrence partial);
     Task.recurrenceCustom :=
       default (Task.recurrenceCustom task)
         (PartialTask.recurrenceCustom partial);
     Task.labelIds :=
       default (Task.labelIds task) (PartialTask.labelIds partial);
     Task.attachments :=
       default (Task.attachments task) (PartialTask.attachments partial);
     Task.color := default (Task.color task) (PartialTask.color partial);
     Task.logs := default (Task.logs task) (PartialTask.logs partial);
     Task.createdAt :=
       default (Task.createdAt task) (PartialTask.createdAt partial) |}.

(** The references to label arrays held by the tasks of a collection. *)
Definition labelRefs (tasks : list Task.t) : gset ArrayRef :=
  list_to_set (Task.labelIds <$> tasks).

(** A new array: it is put in the store under a reference that is
    neither in the store nor among the references [held]. *)
Definition newArray (held : gset ArrayRef) (elements : list string) :
    M ArrayRef := fun w =>
  let r := fresh (held ∪ dom (arrays w)) in
  (r,
   {| uuid_of := uuid_of w; uuid_next := uuid_next w;
      clock_of := clock_of w; clock_next := clock_next w;
      arrays := <[r := elements]> (arrays w) |}).

(** [handleAddTask]: the view names that file a new task under the
    inbox. *)
Definition addsToInbox (activeView : string) : bool :=
  bool_decide (activeView = "inbox") || bool_decide (activeView = "today")
  || bool_decide (activeView = "next7")
  || bool_decide (activeView = "upcoming") || bool_decide (activeView = "all")
  || bool_decide (activeView = "activity")
  || bool_decide (activeView = "search").

Definition handleAddTask (activeView : string)
    (newTaskPartial : PartialTask.t) (prev : list Task.t) : M (list Task.t) :=
  id ← randomUUID;
  labelIds ← newArray
    (labelRefs prev
     ∪ match PartialTask.labelIds newTaskPartial with
       | Some r => {[ r ]}
       | None => ∅
       end) [];
  logId ← randomUUID;
  logTime ← Date_now;
  createdAt ← Date_now;
  let newTask :=
    spreadPartial
      {| Task.id := id;
         Task.listId := if addsToInbox activeView then "inbox" else activeView;
         Task.title := orElse (PartialTask.title newTaskPartial) "Untitled Task";
         Task.description :=
           default None (PartialTask.description newTaskPartial);
         Task.completed := false;
         Task.dueDate := None;
         Task.deadline := None;
         Task.reminders := [];
         Task.estimate := None;
         Task.actualTime := None;
         Task.priority :=
           default Priority.None (PartialTask.priority newTaskPartial);
         Task.subtasks := [];
         Task.recurrence := Recurrence.None;
         Task.recurrenceCustom := None;
         Task.labelIds := labelIds;
         Task.attachments := [];
         Task.color := None;
         Task.logs :=
           [ {| TaskLog.id := logId;
                TaskLog.timestamp := logTime;
                TaskLog.message := "Task created" |} ];
         Task.createdAt := createdAt |}
      newTaskPartial in
  mret (newTask :: prev).

(** *** The detail modal ([TaskDetailModal.tsx]) *)

(** [handleUpdate(updates)]: the modal's task with the updates spread
    over it and the placeholder entry appended to the logs it had. *)
Definition modalHandleUpdate (updates : PartialTask.t) (task : Task.t) :
    M Task.t :=
  id ← randomUUID;
  timestamp ← Date_now;
  mret (Task.with_logs (spreadPartial task updates)
          (Task.logs task ++
           [ {| TaskLog.id := id;
                TaskLog.timestamp := timestamp;
                TaskLog.message := "Updated task details" |} ])).

(** A modal session: [handleUpdate] once per edit, in order. *)
Definition modalSession (edits : list PartialTask.t) (task : Task.t) :
    M Task.t :=
  forEach modalHandleUpdate edits task.

(** *** Lists and labels *)

(** [{...t, listId}] *)
Definition setListId (task : Task.t) (listId : string) : Task.t :=
  spreadPartial task
    {| PartialTask.id := None; PartialTask.listId := Some listId;
       PartialTask.title := None; PartialTask.description := None;
       PartialTask.completed := None; PartialTask.dueDate := None;
       PartialTask.deadline := None; PartialTask.reminders := None;
       PartialTask.estimate := None; PartialTask.actualTime := None;
       PartialTask.priority := None; PartialTask.subtasks := None;
       PartialTask.recurrence := None; PartialTask.recurrenceCustom := None;
       PartialTask.labelIds := None; PartialTask.attachments := None;
       PartialTask.color := None; PartialTask.logs := None;
       PartialTask.createdAt := None |}.

(** [{...t, labelIds}] *)
Definition setLabelIds (task : Task.t) (labelIds : ArrayRef) : Task.t :=
  spreadPartial task
    {| PartialTask.id := None; PartialTask.listId := None;
       PartialTask.title := None; PartialTask.description := None;
       PartialTask.completed := None; PartialTask.dueDate := None;
       PartialTask.deadline := None; PartialTask.reminders := None;
       PartialTask.estimate := None; PartialTask.actualTime := None;
       PartialTask.priority := None; PartialTask.subtasks := None;
       PartialTask.recurrence := None; PartialTask.recurrenceCustom := None;
       PartialTask.labelIds := Some labelIds; PartialTask.attachments := None;
       PartialTask.color := None; PartialTask.logs := None;
       PartialTask.createdAt := None |}.

(** [handleDeleteList]: the lists, the tasks and the active view
    afterwards. *)
Definition handleDeleteList (id : string) (lists : list TaskList.t)
    (tasks : list Task.t) (activeView : string) :
    list TaskList.t * list Task.t * string :=
  (List.filter (fun l => bool_decide (TaskList.id l <> id)) lists,
   List.map (fun t =>
       if bool_decide (Task.listId t = id) then setListId t "inbox" else t)
     tasks,
   if bool_decide (activeView = id) then "inbox" else activeView).

(** The task update of [handleDeleteLabel]: every task gets a new array,
    its label ids without [id].  A task without a label array makes the
    [filter] call throw, and the update yields nothing. *)
Fixpoint removeLabelFromTasks (id : string) (held : gset ArrayRef)
    (prev : list Task.t) (store : gmap ArrayRef (list string)) :
    option (list Task.t * gmap ArrayRef (list string)) :=
  match prev with
  | [] => Some ([], store)
  | t :: prev' =>
      match store !! Task.labelIds t with
      | None => None
      | Some labelIds =>
          let r := fresh (held ∪ dom store) in
          let store :=
            <[r := List.filter (fun lid => bool_decide (lid <> id)) labelIds]>
              store in
          match removeLabelFromTasks id held prev' store with
          | Some (rest, store) => Some (setLabelIds t r :: rest, store)
          | None => None
          end
      end
  end.

(** [handleDeleteLabel]: the labels, the tasks with the store of arrays,
    and the active view afterwards. *)
Definition handleDeleteLabel (id : string) (labels : list Label.t)
    (tasks : list Task.t) (store : gmap ArrayRef (list string))
    (activeView : string) :
    list Label.t * option (list Task.t * gmap ArrayRef (list string))
    * string :=
  (List.filter (fun l => bool_decide (Label.id l <> id)) labels,
   removeLabelFromTasks id (labelRefs tasks) tasks store,
   if bool_decide (activeView = id) then "inbox" else activeView).

Section AppMore.
Import JSDate.

Variable LocalTZA : Z.
(** [toLocaleDateString(undefined, {month: 'short', day: 'numeric',
    year: 'numeric'})] of the host's locale. *)
Variable formatGroupDate : Z -> string.

(** *** Sidebar counts *)

(** [taskCounts]: the object [counts], key by key in the order the code
    assigns them; a later assignment to a key replaces an earlier one. *)
Definition taskCounts (tasks : list Task.t) (lists : list TaskList.t)
    (labels : list Label.t) (store : gmap ArrayRef (list string)) (now : Z) :
    gmap string nat :=
  let counts : gmap string nat := ∅ in
  let counts :=
    <["inbox" :=
        length (List.filter (fun t =>
                    bool_decide (Task.listId t = "inbox")
                    && negb (Task.completed t)) tasks)]> counts in
  let counts :=
    <["today" :=
        length (List.filter (fun t =>
                    isToday LocalTZA now (Task.dueDate t)
                    && negb (Task.completed t)) tasks)]> counts in
  let counts :=
    foldl (fun counts list =>
        <[TaskList.id list :=
            length (List.filter (fun t =>
                        bool_decide (Task.listId t = TaskList.id list)
                        && negb (Task.completed t)) tasks)]> counts)
      counts lists in
  foldl (fun counts label =>
      <[Label.id label :=
          length (List.filter (fun t =>
                      bool_decide
                        (Label.id label ∈ readLabels (Task.labelIds t) store)
                      && negb (Task.completed t)) tasks)]> counts)
    counts labels.

(** *** Activity view *)

Record ActivityLogItem := {
  log : TaskLog.t;
  taskTitle : string;
  taskColor : option string;
  taskId : string }.

(** [a.toDateString() === b.toDateString()]: the two renderings name the
    weekday, month, day and year, and agree exactly when year, month and
    day do. *)
Definition sameDateString (a b : Z) : bool :=
  (getFullYear LocalTZA a =? getFullYear LocalTZA b)
  && (getMonth LocalTZA a =? getMonth LocalTZA b)
  && (getDate LocalTZA a =? getDate LocalTZA b).

(** The key of the group of a log entry, with [now] for the clock. *)
Definition groupKeyOf (now : Z) (item : ActivityLogItem) : string :=
  let date := TaskLog.timestamp (log item) in
  let today := now in
  let yesterday := setDate LocalTZA now (getDate LocalTZA today - 1) in
  let groupKey := formatGroupDate date in
  if sameDateString date today then "Today"
  else if sameDateString date yesterday then "Yesterday"
  else groupKey.

(** [allLogs]: every log entry of every task, newest first. *)
Definition allActivityLogs (tasks : list Task.t) : list ActivityLogItem :=
  Array_sort
    (fun a b => TaskLog.timestamp (log b) - TaskLog.timestamp (log a))
    (flat_map (fun task =>
         List.map (fun l =>
             {| log := l; taskTitle := Task.title task;
                taskColor := Task.color task; taskId := Task.id task |})
           (Task.logs task))
       tasks).

(** [groupedActivityLogs]: empty outside the activity view; otherwise
    each entry is pushed onto the group of its key. *)
Definition groupedActivityLogs (tasks : list Task.t) (activeView : string)
    (now : Z) : gmap string (list ActivityLogItem) :=
  if bool_decide (activeView <> "activity") then ∅
  else
    foldl (fun groups item =>
        let groupKey := groupKeyOf now item in
        <[groupKey := default [] (groups !! groupKey) ++ [item]]> groups)
      ∅ (allActivityLogs tasks).

End AppMore.

(** A partial task with none of the keys [handleAddTask] fills in by
    itself other than title, description and priority: those of the
    smart input (title, description, due date, priority, estimate,
    creation time) and the like. *)
Definition plainPartial (p : PartialTask.t) : Prop :=
  PartialTask.id p = None
  /\ PartialTask.listId p = None
  /\ PartialTask.completed p = None
  /\ PartialTask.reminders p = None
  /\ PartialTask.subtasks p = None
  /\ PartialTask.recurrence p = None
  /\ PartialTask.labelIds p = None
  /\ PartialTask.attachments p = None
  /\ PartialTask.logs p = None.

(** What the smart input passes when the parse fails: title, priority
    None and a creation time. *)
Definition fallbackPartial (input : string) (createdAt : Z) : PartialTask.t :=
  {| PartialTask.id := None; PartialTask.listId := None;
     PartialTask.title := Some input; PartialTask.description := None;
     PartialTask.completed := None; PartialTask.dueDate := None;
     PartialTask.deadline := None; PartialTask.reminders := None;
     PartialTask.estimate := None; PartialTask.actualTime := None;
     PartialTask.priority := Some Priority.None; PartialTask.subtasks := None;
     PartialTask.recurrence := None; PartialTask.recurrenceCustom := None;
     PartialTask.labelIds := None; PartialTask.attachments := None;
     PartialTask.color := None; PartialTask.logs := None;
     PartialTask.createdAt := Some createdAt |}.

(** The tests of the views "inbox" and of a custom list [id]. *)
Definition inList (id : string) (t : Task.t) : bool :=
  bool_decide (Task.listId t = id) && negb (Task.completed t).

(** The view names the code gives a meaning of their own besides
    "inbox". *)
Definition reservedViews : list string :=
  ["today"; "next7"; "upcoming"; "all"; "activity"; "search"].

(** The keys of the sidebar counts. *)
Definition countKeys (lists : list TaskList.t) (labels : list Label.t) :
    list string :=
  ["inbox"; "today"] ++ (TaskList.id <$> lists) ++ (Label.id <$> labels).

(** The activity-log item of the entry [l] of [task]. *)
Definition activityItem (task : Task.t) (l : TaskLog.t) : ActivityLogItem :=
  {| log := l; taskTitle := Task.title task; taskColor := Task.color task;
     taskId := Task.id task |}.

(** *** Edits of the detail modal *)

(** [{ subtasks }] *)
Definition partialSubtasks (subtasks : list SubTask.t) : PartialTask.t :=
  {| PartialTask.id := None; PartialTask.listId := None;
     PartialTask.title := None; PartialTask.description := None;
     PartialTask.completed := None; PartialTask.dueDate := None;
     PartialTask.deadline := None; PartialTask.reminders := None;
     PartialTask.estimate := None; PartialTask.actualTime := None;
     PartialTask.priority := None; PartialTask.subtasks := Some subtasks;
     PartialTask.recurrence := None; PartialTask.recurrenceCustom := None;
     PartialTask.labelIds := None; PartialTask.attachments := None;
     PartialTask.color := None; PartialTask.logs := None;
     PartialTask.createdAt := None |}.

(** [{ labelIds }] *)
Definition partialLabelIds (labelIds : ArrayRef) : PartialTask.t :=
  {| PartialTask.id := None; PartialTask.listId := None;
     PartialTask.title := None; PartialTask.description := None;
     PartialTask.completed := None; PartialTask.dueDate := None;
     PartialTask.deadline := None; PartialTask.reminders := None;
     PartialTask.estimate := None; PartialTask.actualTime := None;
     PartialTask.priority := None; PartialTask.subtasks := None;
     PartialTask.recurrence := None; PartialTask.recurrenceCustom := None;
     PartialTask.labelIds := Some labelIds; PartialTask.attachments := None;
     PartialTask.color := None; PartialTask.logs := None;
     PartialTask.createdAt := None |}.

(** [{...s, completed: !s.completed}] *)
Definition flipSubtask (s : SubTask.t) : SubTask.t :=
  {| SubTask.id := SubTask.id s; SubTask.title := SubTask.title s;
     SubTask.completed := negb (SubTask.completed s);
     SubTask.dueDate := SubTask.dueDate s |}.

(** [toggleSubtask] of the modal. *)
Definition toggleSubtask (subId : string) (task : Task.t) : M Task.t :=
  let newSubs :=
    List.map (fun s =>
        if bool_decide (SubTask.id s = subId) then flipSubtask s else s)
      (Task.subtasks task) in
  modalHandleUpdate (partialSubtasks newSubs) task.

(** [toggleLabel] of the modal; [filter] and the array literal make a
    new array, apart from the references [held] elsewhere. *)
Definition toggleLabel (held : gset ArrayRef) (labelId : string)
    (task : Task.t) : M Task.t := fun w =>
  let currentLabels := readLabels (Task.labelIds task) (arrays w) in
  (if bool_decide (labelId ∈ currentLabels)
   then
     labelIds ← newArray held
       (List.filter (fun id => bool_decide (id <> labelId)) currentLabels);
     modalHandleUpdate (partialLabelIds labelIds) task
   else
     labelIds ← newArray held (currentLabels ++ [labelId]);
     modalHandleUpdate (partialLabelIds labelIds) task) w.

(** ** More sample data *)

(** A custom list. *)
Definition workList : TaskList.t :=
  {| TaskList.id := "work"; TaskList.name := "Work";
     TaskList.color := "#2563eb"; TaskList.icon := "briefcase";
     TaskList.isDefault := None |}.

(** A label. *)
Definition urgentLabel : Label.t :=
  {| Label.id := "urgent"; Label.name := "Urgent"; Label.color := "#dc2626" |}.

(** [threeReminders] after the tick at 10. *)
Definition tickedThree : Task.t :=
  Task.with_reminders threeReminders
    (checkedReminders 10 (Task.reminders threeReminders)).

(** A host whose store holds the label arrays of [weeklyTask] and
    [plainTask]. *)
Definition labelledWorld : World :=
  {| uuid_of := sampleUUID; uuid_next := 0;
     clock_of := fun n => 1700000000000 + Z.of_nat n; clock_next := 0;
     arrays := {[ 1%nat := ["urgent"; "design"]; 2%nat := ["urgent"] ]} |}.
(** * Facts about the calendar *)

Module JSDateFacts.
Import JSDate.

Ltac zdiv := Z.to_euclidean_division_equations; lia.





Lemma Day_TimeWithinDay t : MakeDate (Day t) (TimeWithinDay t) = t.
Proof. unfold MakeDate, Day, TimeWithinDay, msPerDay. zdiv. Qed.




Lemma MonthFromTime_bounds t : 0 <= MonthFromTime t <= 11.
Proof. unfold MonthFromTime. repeat case_match; lia. Qed.


(** The three calendar fields of a time value name its own day. *)
Lemma MakeDay_fields t n :
  MakeDay (YearFromTime t) (MonthFromTime t) (DateFromTime t + n) = Day t + n.
Proof.
  unfold MakeDay. pose proof (MonthFromTime_bounds t) as Hm.
  replace (MonthFromTime t / 12) with 0 by zdiv.
  replace (MonthFromTime t mod 12) with (MonthFromTime t) by zdiv.
  rewrite Z.add_0_r. fold (InLeapYear t).
  unfold DateFromTime, DayWithinYear. lia.
Qed.









Section LocalTimeFacts.
Variable LocalTZA : Z.

Lemma setDate_getDate t n :
  setDate LocalTZA t (getDate LocalTZA t + n) = t + n * msPerDay.
Proof.
  unfold setDate, getDate. rewrite MakeDay_fields.
  pose proof (Day_TimeWithinDay (LocalTime LocalTZA t)) as H.
  unfold MakeDate, UTC, LocalTime in *. lia.
Qed.



End LocalTimeFacts.

End JSDateFacts.

(** * The recurrence calculator *)

Section CalculatorFacts.
Import JSDate JSDateFacts.
Variable LocalTZA : Z.





(** A present anchor always yields a date. *)
Lemma calculateNextDueDate_is_Some (t : Z) (rule : Recurrence.t)
    (custom : option RecurrenceCustom) :
  is_Some (calculateNextDueDate LocalTZA (Some t) rule custom).
Proof. unfold calculateNextDueDate. eauto. Qed.

Lemma calculateNextDueDate_None_rule (t : Z) (custom : option RecurrenceCustom) :
  calculateNextDueDate LocalTZA (Some t) Recurrence.None custom = Some t.
Proof. reflexivity. Qed.




End CalculatorFacts.

(** * The task store: toggle and delete *)

Section ToggleFacts.
Import JSDate JSDateFacts.
Variable LocalTZA : Z.

Ltac run :=
  unfold mbind, M_bind, mret, M_ret, randomUUID, Date_now; cbn [fst snd].

Lemma list_find_id_insert (id : string) (prev : list Task.t) (i : nat)
    (task task' : Task.t) :
  list_find (fun t => Task.id t = id) prev = Some (i, task) ->
  Task.id task' = id ->
  list_find (fun t => Task.id t = id) (<[i := task']> prev) = Some (i, task').
Proof.
  intros (Hi & Hid & Hmin)%list_find_Some Hid'.
  apply list_find_Some. split_and!.
  - apply list_lookup_insert_eq. by eapply lookup_lt_Some.
  - done.
  - intros j y Hj Hlt. rewrite list_lookup_insert_ne in Hj by lia. eauto.
Qed.

(** Without a spawn, the toggle replaces the task where it stands. *)
Lemma handleToggleTask_in_place (id : string) (prev : list Task.t) (w : World)
    (i : nat) (task : Task.t) :
  list_find (fun t => Task.id t = id) prev = Some (i, task) ->
  Task.completed task = true \/ Task.recurrence task = Recurrence.None ->
  fst (handleToggleTask LocalTZA id prev w) = <[i := toggledTask task w]> prev.
Proof.
  intros Hfind Hcase. unfold handleToggleTask, toggledTask. rewrite Hfind. run.
  destruct Hcase as [Hc | Hr].
  - rewrite Hc. reflexivity.
  - rewrite Hr. rewrite bool_decide_eq_false_2 by (intros H; by apply H).
    rewrite andb_false_r. reflexivity.
Qed.

Lemma handleToggleTask_arrays (id : string) (prev : list Task.t) (w : World) :
  arrays (snd (handleToggleTask LocalTZA id prev w)) = arrays w.
Proof.
  unfold handleToggleTask.
  destruct (list_find _ prev) as [[i task] |]; [| reflexivity]. run.
  destruct (negb (Task.completed task) && _); [| reflexivity].
  destruct (Task.dueDate task); run;
    destruct (calculateNextDueDate _ _ _ _); reflexivity.
Qed.


(** C8.  Toggling a stored task whose recurrence is None twice leaves a
    collection of the same length in which every other position is as
    before and the task has its original completed flag, two more log
    entries and all other fields as before. *)
Theorem handleToggleTask_twice (id : string) (prev : list Task.t)
    (w w' : World) (i : nat) (task : Task.t) :
  list_find (fun t => Task.id t = id) prev = Some (i, task) ->
  Task.recurrence task = Recurrence.None ->
  let once := fst (handleToggleTask LocalTZA id prev w) in
  let twice := fst (handleToggleTask LocalTZA id once w') in
  length twice = length prev
  /\ (forall j, j <> i -> twice !! j = prev !! j)
  /\ exists task2,
       twice !! i = Some task2
       /\ Task.completed task2 = Task.completed task
       /\ length (Task.logs task2) = (length (Task.logs task) + 2)%nat
       /\ exists l1 l2,
            task2 = Task.with_logs task (Task.logs task ++ [l1; l2]).
Proof.
  intros Hfind Hr once twice.
  assert (once = <[i := toggledTask task w]> prev) as Honce
    by (apply handleToggleTask_in_place; auto).
  assert (Task.id task = id) as Hid.
  { apply list_find_Some in Hfind. tauto. }
  assert (list_find (fun t => Task.id t = id) once
          = Some (i, toggledTask task w)) as Hfind1.
  { rewrite Honce. by apply list_find_id_insert with (task := task). }
  assert (twice = <[i := toggledTask (toggledTask task w) w']> once) as Htwice
    by (apply handleToggleTask_in_place; auto).
  assert (i < length prev)%nat as Hlt.
  { apply list_find_Some in Hfind as [Hi _]. by eapply lookup_lt_Some. }
  rewrite Htwice, Honce, list_insert_insert_eq.
  split; [by rewrite length_insert |].
  split; [intros j Hj; by rewrite list_lookup_insert_ne |].
  eexists. split; [by apply list_lookup_insert_eq |].
  unfold toggledTask, Task.with_logs, Task.with_completed_logs.
  cbn [Task.completed Task.logs]. rewrite negb_involutive.
  split; [reflexivity |]. split.
  - rewrite !length_app. cbn. lia.
  - eexists _, _. rewrite <- app_assoc. reflexivity.
Qed.

Lemma handleToggleTask_not_found (id : string) (prev : list Task.t) (w : World) :
  (forall t, t ∈ prev -> Task.id t <> id) ->
  handleToggleTask LocalTZA id prev w = (prev, w).
Proof.
  intros Hnone. unfold handleToggleTask.
  destruct (list_find _ prev) as [[i task] |] eqn:Hfind; [| reflexivity].
  apply list_find_Some in Hfind as (Hi & Hid & _).
  exfalso. eapply Hnone; [| exact Hid]. by eapply list_elem_of_lookup_2.
Qed.

Lemma handleDeleteTask_not_found (id : string) (prev : list Task.t) :
  (forall t, t ∈ prev -> Task.id t <> id) ->
  handleDeleteTask id prev = prev.
Proof.
  intros Hnone. unfold handleDeleteTask.
  induction prev as [| t prev IH]; [reflexivity |].
  cbn [List.filter].
  rewrite bool_decide_eq_true_2 by (apply Hnone; left).
  f_equal. apply IH. intros t' Ht'. apply Hnone. by right.
Qed.

End ToggleFacts.

(** * The task store: update *)

Section MonadFacts.
Context {A B : Type}.

Lemma mapM_M_cons (f : A -> M B) (x : A) (l : list A) (w : World) :
  mapM f (x :: l) w
  = (fst (f x w) :: fst (mapM f l (snd (f x w))),
     snd (mapM f l (snd (f x w)))).
Proof.
  cbn [mapM]. unfold mbind, M_bind, mret, M_ret.
  destruct (f x w) as [y w1]. cbn [fst snd].
  by destruct (mapM f l w1).
Qed.

Lemma mapM_M_length (f : A -> M B) (l : list A) (w : World) :
  length (fst (mapM f l w)) = length l.
Proof.
  revert w. induction l as [| x l IH]; intros w; [reflexivity |].
  rewrite mapM_M_cons. cbn. by rewrite IH.
Qed.

(** The element at position [i] is processed in the world the first
    [i] elements leave behind. *)
Lemma mapM_M_lookup (f : A -> M B) (l : list A) (w : World) (i : nat) (x : A) :
  l !! i = Some x ->
  fst (mapM f l w) !! i = Some (fst (f x (snd (mapM f (take i l) w)))).
Proof.
  revert w i. induction l as [| y l IH]; intros w i Hi; [done |].
  rewrite mapM_M_cons. destruct i as [| i].
  - by injection Hi as ->.
  - cbn [take]. rewrite mapM_M_cons. cbn. by apply IH.
Qed.

End MonadFacts.

Lemma mapM_M_unchanged {A : Type} (f : A -> M A) (l : list A) (w : World) :
  (forall x, x ∈ l -> f x w = (x, w)) ->
  mapM f l w = (l, w).
Proof.
  induction l as [| x l IH]; intros Hf; [reflexivity |].
  rewrite mapM_M_cons, (Hf x) by left. cbn [fst snd].
  rewrite IH; [reflexivity |]. intros y Hy. apply Hf. by right.
Qed.

Lemma List_filter_filter {A : Type} (f g : A -> bool) (l : list A) :
  List.filter f (List.filter g l) = List.filter (fun x => g x && f x) l.
Proof.
  induction l as [| x l IH]; [reflexivity |].
  cbn [List.filter]. destruct (g x); cbn [List.filter andb]; [| exact IH].
  destruct (f x); by rewrite IH.
Qed.

Lemma existsb_id_elem_of (ids : list string) (id : string) :
  existsb (fun i => bool_decide (i = id)) ids = bool_decide (id ∈ ids).
Proof.
  induction ids as [| i ids IH]; cbn [existsb].
  - by rewrite bool_decide_eq_false_2 by apply not_elem_of_nil.
  - rewrite IH. destruct (decide (i = id)) as [-> | Hne].
    + rewrite (bool_decide_eq_true_2 (id = id)) by done. cbn [orb].
      symmetry. apply bool_decide_eq_true_2. left.
    + rewrite (bool_decide_eq_false_2 (i = id)) by done. cbn [orb].
      apply bool_decide_ext. rewrite elem_of_cons.
      split; [tauto | intros [Heq | Hin]; [congruence | exact Hin]].
Qed.

(** ** Computations that do not touch the store of arrays *)

Lemma keepsArrays_ret {A} (x : A) : keepsArrays (mret x).
Proof. by intros w. Qed.

Lemma keepsArrays_bind {A B} (m : M A) (f : A -> M B) :
  keepsArrays m -> (forall x, keepsArrays (f x)) -> keepsArrays (m ≫= f).
Proof.
  intros Hm Hf w. unfold mbind, M_bind.
  specialize (Hm w). destruct (m w) as [x w1]. cbn [snd] in *.
  by rewrite Hf.
Qed.

Lemma keepsArrays_randomUUID : keepsArrays randomUUID.
Proof. by intros w. Qed.

Lemma keepsArrays_Date_now : keepsArrays Date_now.
Proof. by intros w. Qed.

Lemma keepsArrays_addLog ts msg logs : keepsArrays (addLog ts msg logs).
Proof.
  apply keepsArrays_bind; [apply keepsArrays_randomUUID |].
  intros id. apply keepsArrays_ret.
Qed.

Lemma keepsArrays_forEach {A S} (f : A -> S -> M S) (l : list A) (s : S) :
  (forall x s', keepsArrays (f x s')) -> keepsArrays (forEach f l s).
Proof.
  intros Hf. revert s. induction l as [| x l IH]; intros s; cbn [forEach].
  - apply keepsArrays_ret.
  - apply keepsArrays_bind; [apply Hf | apply IH].
Qed.

Ltac keeps :=
  repeat first
    [ apply keepsArrays_ret
    | apply keepsArrays_addLog
    | apply keepsArrays_Date_now
    | apply keepsArrays_randomUUID
    | apply keepsArrays_forEach; intros ? ?
    | apply keepsArrays_bind; [| intros ?]
    | match goal with
      | |- keepsArrays (if ?b then _ else _) => destruct b
      | |- keepsArrays (match ?x with _ => _ end) => destruct x
      end ].

(** [forEach] over [addLog] appends one entry per element, in order. *)
Lemma forEach_addLog_messages {A} (msg : A -> string) (ts : Z) (l : list A)
    (logs : list TaskLog.t) (w : World) :
  TaskLog.message <$> fst (forEach (fun x => addLog ts (msg x)) l logs w)
  = (TaskLog.message <$> logs) ++ (msg <$> l).
Proof.
  revert logs w. induction l as [| x l IH]; intros logs w; cbn [forEach].
  - unfold mret, M_ret. cbn. by rewrite app_nil_r.
  - unfold mbind at 1, M_bind at 1.
    destruct (addLog ts (msg x) logs w) as [logs1 w1] eqn:Hadd.
    rewrite IH. unfold addLog, mbind, M_bind, randomUUID, mret, M_ret in Hadd.
    injection Hadd as <- _. rewrite fmap_app. cbn. by rewrite <- app_assoc.
Qed.

Section UpdateFacts.
Variable toLocaleDateString : Z -> string.
Variable lists : list TaskList.t.
Variable labels : list Label.t.

Lemma keptLogs_filter (t u : Task.t) :
  List.filter (fun l =>
      bool_decide (TaskLog.message l <> "Updated task details"))
    (List.filter (fun l =>
         negb (bool_decide
                 (TaskLog.id l ∈ (list_to_set (TaskLog.id <$> Task.logs t)
                                   : gset string))))
       (Task.logs u))
  = keptLogs t u.
Proof.
  rewrite List_filter_filter. unfold keptLogs.
  apply List.filter_ext. intros l. f_equal. f_equal.
  transitivity (bool_decide (TaskLog.id l ∈ TaskLog.id <$> Task.logs t)).
  - apply bool_decide_ext. by rewrite elem_of_list_to_set.
  - rewrite <- existsb_id_elem_of. clear.
    induction (Task.logs t) as [| l0 ls IH]; [reflexivity |].
    cbn [fmap list_fmap existsb]. by rewrite <- IH.
Qed.

(** What the [map] callback returns for a task with the snapshot's id:
    the snapshot, with the merged log list. *)
Lemma updateStored_result (u t : Task.t) (w : World) :
  fst (updateStored toLocaleDateString lists labels u t w)
  = Task.with_logs u
      (Task.logs t ++ keptLogs t u
       ++ synthesizedLogs toLocaleDateString lists labels t u w).
Proof.
  unfold updateStored, synthesizedLogs, mbind, M_bind, mret, M_ret.
  destruct (Date_now w) as [ts w1]. cbn [fst snd].
  destruct (diffLogs _ _ _ _ _ _ _) as [newLogs w2]. cbn [fst].
  by rewrite keptLogs_filter.
Qed.

(** C3.  For every stored task with the snapshot's id, the task that
    [handleUpdateTask] puts in its place has as log list the stored
    task's logs, then the snapshot's logs whose id is on no stored
    entry and whose message is not "Updated task details", then the
    entries the comparison synthesized, in that order. *)
Theorem handleUpdateTask_logs (u : Task.t) (prev : list Task.t) (w : World)
    (i : nat) (t : Task.t) :
  prev !! i = Some t ->
  Task.id t = Task.id u ->
  exists t',
    fst (handleUpdateTask toLocaleDateString lists labels u prev w) !! i
    = Some t'
    /\ Task.logs t'
       = Task.logs t ++ keptLogs t u
         ++ synthesizedLogs toLocaleDateString lists labels t u
              (snd (handleUpdateTask toLocaleDateString lists labels u
                      (take i prev) w)).
Proof.
  intros Hi Hid. unfold handleUpdateTask.
  eexists. split; [by apply mapM_M_lookup |]. cbv beta.
  rewrite bool_decide_eq_true_2 by done.
  by rewrite updateStored_result.
Qed.

(** *** Attachments *)

(** With as many attachments before as after, the comparison of the
    attachments logs nothing, whatever the attachments are. *)
Lemma diffAttachments_same_length (t u : Task.t) (ts : Z)
    (newLogs : list TaskLog.t) (w : World) :
  length (Task.attachments t) = length (Task.attachments u) ->
  diffAttachments t u ts newLogs w = (newLogs, w).
Proof.
  intros Hlen. unfold diffAttachments.
  by rewrite bool_decide_eq_false_2 by (intros H; by apply H).
Qed.

(** With a different number of attachments, it logs one "Added
    attachment" entry per attachment whose id is new and then one
    "Removed attachment" entry per attachment whose id is gone. *)
Lemma diffAttachments_messages (t u : Task.t) (ts : Z)
    (newLogs : list TaskLog.t) (w : World) :
  length (Task.attachments t) <> length (Task.attachments u) ->
  TaskLog.message <$> fst (diffAttachments t u ts newLogs w)
  = (TaskLog.message <$> newLogs)
    ++ ((fun a => "Added attachment " +:+ quoted (Attachment.name a))
        <$> attachmentsNotIn (Task.attachments t) (Task.attachments u))
    ++ ((fun a => "Removed attachment " +:+ quoted (Attachment.name a))
        <$> attachmentsNotIn (Task.attachments u) (Task.attachments t)).
Proof.
  intros Hlen. unfold diffAttachments.
  rewrite bool_decide_eq_true_2 by done.
  unfold mbind, M_bind.
  match goal with
  | |- context [forEach ?f ?l newLogs w] =>
      pose proof (forEach_addLog_messages
                    (fun a => "Added attachment " +:+ quoted (Attachment.name a))
                    ts l newLogs w) as Hadd;
      destruct (forEach f l newLogs w) as [logs1 w1]
  end.
  cbn [fst] in Hadd.
  rewrite (forEach_addLog_messages
             (fun a => "Removed attachment " +:+ quoted (Attachment.name a))).
  rewrite Hadd. by rewrite <- app_assoc.
Qed.

(** *** Fields, frame and label arrays *)

Lemma handleUpdateTask_length (u : Task.t) (prev : list Task.t) (w : World) :
  length (fst (handleUpdateTask toLocaleDateString lists labels u prev w))
  = length prev.
Proof. apply mapM_M_length. Qed.

(** A stored task with the snapshot's id is replaced by the snapshot,
    logs apart: every other field, the reference to the label array
    included, is the snapshot's. *)
Lemma handleUpdateTask_stored (u : Task.t) (prev : list Task.t) (w : World)
    (i : nat) (t : Task.t) :
  prev !! i = Some t ->
  Task.id t = Task.id u ->
  exists finalLogs,
    fst (handleUpdateTask toLocaleDateString lists labels u prev w) !! i
    = Some (Task.with_logs u finalLogs).
Proof.
  intros Hi Hid. unfold handleUpdateTask.
  eexists. erewrite mapM_M_lookup by done. cbv beta.
  rewrite bool_decide_eq_true_2 by done.
  by rewrite updateStored_result.
Qed.

(** A stored task with another id is returned as it is. *)
Lemma handleUpdateTask_other (u : Task.t) (prev : list Task.t) (w : World)
    (i : nat) (t : Task.t) :
  prev !! i = Some t ->
  Task.id t <> Task.id u ->
  fst (handleUpdateTask toLocaleDateString lists labels u prev w) !! i = Some t.
Proof.
  intros Hi Hid. unfold handleUpdateTask.
  erewrite mapM_M_lookup by done. cbv beta.
  by rewrite bool_decide_eq_false_2 by done.
Qed.

Lemma handleUpdateTask_not_found (u : Task.t) (prev : list Task.t) (w : World) :
  (forall t, t ∈ prev -> Task.id t <> Task.id u) ->
  handleUpdateTask toLocaleDateString lists labels u prev w = (prev, w).
Proof.
  intros Hnone. unfold handleUpdateTask. apply mapM_M_unchanged.
  intros t Ht. by rewrite bool_decide_eq_false_2 by (by apply Hnone).
Qed.

Lemma diffLabels_arrays (t u : Task.t) (ts : Z) (newLogs : list TaskLog.t)
    (w : World) :
  arrays (snd (diffLabels labels t u ts newLogs w))
  = sortedAt (Task.labelIds t) (Task.labelIds u) (arrays w).
Proof.
  unfold diffLabels, mbind, M_bind, sortLabels. cbn [fst snd].
  match goal with
  | |- arrays (snd (?m ?w')) = _ =>
      assert (keepsArrays m) as Hk by keeps; rewrite (Hk w')
  end.
  reflexivity.
Qed.

Lemma diffLogs_arrays (t u : Task.t) (ts : Z) (w : World) :
  arrays (snd (diffLogs toLocaleDateString lists labels t u ts w))
  = sortedAt (Task.labelIds t) (Task.labelIds u) (arrays w).
Proof.
  unfold diffLogs.
  assert (forall {A B} (m : M A) (f : A -> M B) w0 store,
             keepsArrays m ->
             (forall x w1, arrays (snd (f x w1)) = store (arrays w1)) ->
             arrays (snd ((m ≫= f) w0)) = store (arrays w0)) as Hpre.
  { intros A B m f w0 store Hm Hf. unfold mbind, M_bind.
    specialize (Hm w0). destruct (m w0) as [x w1]. cbn [snd] in Hm.
    by rewrite Hf, Hm. }
  do 8 (apply Hpre;
        [ unfold diffTitle, diffDescription, diffDueDate, diffDeadline,
            diffPriority, diffList, diffEstimate, diffActualTime; keeps
        | intros ? ? ]).
  unfold mbind, M_bind.
  match goal with
  | |- context [diffLabels labels t u ts ?l ?w0] =>
      pose proof (diffLabels_arrays t u ts l w0) as Hl;
      destruct (diffLabels labels t u ts l w0) as [logsL worldL]
  end.
  cbn [snd] in Hl. rewrite <- Hl.
  assert (forall l, keepsArrays (diffAttachments t u ts l)) as Ha
    by (intros; unfold diffAttachments; keeps).
  assert (forall l, keepsArrays (diffSubtasks t u ts l)) as Hs
    by (intros; unfold diffSubtasks, diffSubtask; keeps).
  specialize (Ha logsL worldL).
  destruct (diffAttachments t u ts logsL worldL) as [logsA worldA].
  cbn [snd] in Ha. by rewrite Hs, Ha.
Qed.

Lemma updateStored_arrays (u t : Task.t) (w : World) :
  arrays (snd (updateStored toLocaleDateString lists labels u t w))
  = sortedAt (Task.labelIds t) (Task.labelIds u) (arrays w).
Proof.
  unfold updateStored, mbind, M_bind, mret, M_ret, Date_now. cbn [fst snd].
  match goal with
  | |- context [diffLogs ?f lists labels t u ?ts ?w0] =>
      pose proof (diffLogs_arrays t u ts w0) as Hd;
      destruct (diffLogs f lists labels t u ts w0) as [l w1]
  end.
  exact Hd.
Qed.

Lemma sort_insert_Permutation {A} (cmp : A -> A -> Z) (x : A) (l : list A) :
  sort_insert cmp x l ≡ₚ x :: l.
Proof.
  induction l as [| y l IH]; [reflexivity |]. cbn [sort_insert].
  destruct (cmp x y <=? 0); [reflexivity |].
  rewrite IH. apply Permutation_swap.
Qed.

Lemma Array_sort_Permutation {A} (cmp : A -> A -> Z) (l : list A) :
  Array_sort cmp l ≡ₚ l.
Proof.
  unfold Array_sort. induction l as [| x l IH]; [reflexivity |].
  cbn [foldr]. by rewrite sort_insert_Permutation, IH.
Qed.

Lemma readLabels_sortedAt (rt ru r : ArrayRef)
    (store : gmap ArrayRef (list string)) :
  readLabels r (sortedAt rt ru store) ≡ₚ readLabels r store.
Proof.
  unfold readLabels, sortedAt.
  assert (forall r' (m : gmap ArrayRef (list string)),
             default [] (alter (Array_sort compareStrings) r' m !! r)
             ≡ₚ default [] (m !! r)) as Halter.
  { intros r' m. destruct (decide (r' = r)) as [-> | Hne].
    - rewrite lookup_alter_eq. destruct (m !! r); cbn; [| reflexivity].
      apply Array_sort_Permutation.
    - by rewrite lookup_alter_ne. }
  by rewrite !Halter.
Qed.

Lemma lookup_sortedAt_ne (rt ru r : ArrayRef)
    (store : gmap ArrayRef (list string)) :
  r <> rt -> r <> ru -> sortedAt rt ru store !! r = store !! r.
Proof. intros Ht Hu. unfold sortedAt. by rewrite !lookup_alter_ne. Qed.

(** Every label array holds afterwards the ids it held before, in some
    order. *)
Lemma handleUpdateTask_arrays_Permutation (u : Task.t) (prev : list Task.t)
    (w : World) (r : ArrayRef) :
  readLabels r
    (arrays (snd (handleUpdateTask toLocaleDateString lists labels u prev w)))
  ≡ₚ readLabels r (arrays w).
Proof.
  unfold handleUpdateTask. revert w.
  induction prev as [| t prev IH]; intros w; [reflexivity |].
  rewrite mapM_M_cons. cbn [snd]. rewrite IH.
  case_bool_decide; [| reflexivity].
  rewrite updateStored_arrays. apply readLabels_sortedAt.
Qed.

(** An array that is neither the snapshot's nor that of a stored task
    with the snapshot's id is left as it is. *)
Lemma handleUpdateTask_arrays_frame (u : Task.t) (prev : list Task.t)
    (w : World) (r : ArrayRef) :
  r <> Task.labelIds u ->
  (forall t, t ∈ prev -> Task.id t = Task.id u -> r <> Task.labelIds t) ->
  arrays (snd (handleUpdateTask toLocaleDateString lists labels u prev w)) !! r
  = arrays w !! r.
Proof.
  intros Hu. unfold handleUpdateTask. revert w.
  induction prev as [| t prev IH]; intros w Hprev; [reflexivity |].
  rewrite mapM_M_cons. cbn [snd].
  rewrite IH by (intros t' Ht'; apply Hprev; by right).
  case_bool_decide as Hid; [| reflexivity].
  rewrite updateStored_arrays. apply lookup_sortedAt_ne; [| done].
  apply Hprev; [left | done].
Qed.

End UpdateFacts.

(** * The view filter and sort engine *)

Section SortFacts.
Context {A : Type} (cmp : A -> A -> Z).
Hypothesis cmp_total : forall a b, cmp_le cmp a b \/ cmp_le cmp b a.
Hypothesis cmp_trans :
  forall a b c, cmp_le cmp a b -> cmp_le cmp b c -> cmp_le cmp a c.

Lemma sort_insert_StronglySorted (x : A) (l : list A) :
  StronglySorted (cmp_le cmp) l ->
  StronglySorted (cmp_le cmp) (sort_insert cmp x l).
Proof.
  induction 1 as [| y l Hsorted IH Hy]; cbn [sort_insert].
  - repeat constructor.
  - destruct (Z.leb_spec (cmp x y) 0) as [Hle | Hgt].
    + constructor; [by constructor |].
      constructor; [exact Hle |].
      eapply Forall_impl; [exact Hy |]. intros z Hz. by eapply cmp_trans.
    + constructor; [exact IH |].
      rewrite sort_insert_Permutation. constructor; [| exact Hy].
      destruct (cmp_total x y) as [Hxy | Hyx]; [| exact Hyx].
      unfold cmp_le in Hxy. lia.
Qed.

Lemma Array_sort_StronglySorted (l : list A) :
  StronglySorted (cmp_le cmp) (Array_sort cmp l).
Proof.
  unfold Array_sort. induction l as [| x l IH]; cbn [foldr].
  - constructor.
  - by apply sort_insert_StronglySorted.
Qed.

End SortFacts.

Lemma StronglySorted_lookup {A} (R : A -> A -> Prop) (l : list A)
    (i j : nat) (a b : A) :
  StronglySorted R l ->
  l !! i = Some a -> l !! j = Some b -> (i < j)%nat -> R a b.
Proof.
  intros Hsorted. revert i j.
  induction Hsorted as [| x l Hsorted IH Hx]; intros i j Hi Hj Hlt; [done |].
  destruct j as [| j]; [lia |]. cbn in Hj. destruct i as [| i].
  - injection Hi as ->. rewrite Forall_forall in Hx. apply Hx.
    by eapply list_elem_of_lookup_2.
  - cbn in Hi. apply (IH i j); [done | done | lia].
Qed.

Section ViewFacts.
Variable LocalTZA : Z.
Variable localeCompare : string -> string -> Z.

Lemma compareTasks_smart_total (a b : Task.t) :
  cmp_le (compareTasks localeCompare smart) a b
  \/ cmp_le (compareTasks localeCompare smart) b a.
Proof.
  unfold cmp_le, compareTasks, compareDueDate.
  generalize (prioOrder (Task.priority a)) (prioOrder (Task.priority b)).
  intros pa pb.
  destruct (Task.completed a), (Task.completed b),
    (Task.dueDate a), (Task.dueDate b); cbn [eqb negb];
    repeat case_match; lia.
Qed.

Lemma compareTasks_smart_trans (a b c : Task.t) :
  cmp_le (compareTasks localeCompare smart) a b ->
  cmp_le (compareTasks localeCompare smart) b c ->
  cmp_le (compareTasks localeCompare smart) a c.
Proof.
  unfold cmp_le, compareTasks, compareDueDate.
  generalize (prioOrder (Task.priority a)) (prioOrder (Task.priority b))
    (prioOrder (Task.priority c)).
  intros pa pb pc.
  destruct (Task.completed a), (Task.completed b), (Task.completed c),
    (Task.dueDate a), (Task.dueDate b), (Task.dueDate c); cbn [eqb negb];
    repeat case_match; lia.
Qed.

(** What it means for [a] to be allowed before [b] under the smart sort. *)
Lemma compareTasks_smart_le (a b : Task.t) :
  cmp_le (compareTasks localeCompare smart) a b ->
  (Task.completed a = true -> Task.completed b = true)
  /\ (Task.completed a = Task.completed b ->
      prioOrder (Task.priority b) <= prioOrder (Task.priority a))
  /\ (Task.completed a = Task.completed b ->
      prioOrder (Task.priority a) = prioOrder (Task.priority b) ->
      dueDate_le a b).
Proof.
  unfold cmp_le, compareTasks, compareDueDate, dueDate_le.
  generalize (prioOrder (Task.priority a)) (prioOrder (Task.priority b)).
  intros pa pb.
  destruct (Task.completed a), (Task.completed b),
    (Task.dueDate a), (Task.dueDate b); cbn [eqb negb];
    repeat case_match; intros Hle; split_and!; intros; try done; try lia.
Qed.

(** C6.  In the list [filteredTasks] derives under the smart sort, for
    any two positions, the earlier task [a] and the later task [b]: if
    [a] is completed so is [b]; when they agree on completion, the
    priority of [a] (High 3, Medium 2, Low 1, None 0) is at least that
    of [b], whatever their due dates; and when they also agree on
    priority, [a] is dated if [b] is, and due no later than [b] when
    both are dated. *)
Theorem filteredTasks_smart_order (tasks : list Task.t) (labels : list Label.t)
    (store : gmap ArrayRef (list string)) (activeView searchQuery : string)
    (now : Z) (i j : nat) (a b : Task.t) :
  let shown :=
    filteredTasks LocalTZA localeCompare tasks labels store activeView
      searchQuery smart now in
  shown !! i = Some a ->
  shown !! j = Some b ->
  (i < j)%nat ->
  (Task.completed a = true -> Task.completed b = true)
  /\ (Task.completed a = Task.completed b ->
      prioOrder (Task.priority b) <= prioOrder (Task.priority a))
  /\ (Task.completed a = Task.completed b ->
      prioOrder (Task.priority a) = prioOrder (Task.priority b) ->
      dueDate_le a b).
Proof.
  intros shown Hi Hj Hlt. apply compareTasks_smart_le.
  subst shown. unfold filteredTasks in Hi, Hj.
  case_bool_decide; [done |].
  eapply StronglySorted_lookup; [| exact Hi | exact Hj | exact Hlt].
  apply Array_sort_StronglySorted;
    [apply compareTasks_smart_total | apply compareTasks_smart_trans].
Qed.

Lemma filteredTasks_search_empty (tasks : list Task.t) (labels : list Label.t)
    (store : gmap ArrayRef (list string)) (sortBy : SortOption) (now : Z) :
  filteredTasks LocalTZA localeCompare tasks labels store "search" EmptyString
    sortBy now
  = Array_sort (compareTasks localeCompare sortBy) tasks.
Proof. reflexivity. Qed.

(** C5, as amended.  In the search view with an empty query, the
    derived list holds every task of the collection, each as often as
    the collection does, in the order of the chosen sort. *)
Theorem filteredTasks_search_empty_query (tasks : list Task.t)
    (labels : list Label.t) (store : gmap ArrayRef (list string))
    (sortBy : SortOption) (now : Z) :
  filteredTasks LocalTZA localeCompare tasks labels store "search" EmptyString
    sortBy now
  ≡ₚ tasks.
Proof. rewrite filteredTasks_search_empty. apply Array_sort_Permutation. Qed.

End ViewFacts.

(** * The reminder scheduler *)

Section TickFacts.
Variable now : Z.
Variable granted : bool.

Lemma with_reminders_same (task : Task.t) :
  Task.with_reminders task (Task.reminders task) = task.
Proof. destruct task; reflexivity. Qed.

Lemma checkedReminders_none_due (rs : list Reminder.t) :
  List.filter (dueUnfired now) rs = [] -> checkedReminders now rs = rs.
Proof.
  intros Hnone. unfold checkedReminders. rewrite Hnone. cbn [existsb].
  apply List.map_id.
Qed.

Lemma checkReminders_task (task : Task.t) :
  fst (fst (checkReminders now granted task))
  = if Task.completed task then task
    else Task.with_reminders task (checkedReminders now (Task.reminders task)).
Proof.
  unfold checkReminders. fold (dueUnfired now).
  destruct (Task.completed task); [reflexivity |]. cbn [orb].
  case_bool_decide as Hempty.
  - cbn [fst]. apply nil_length_inv in Hempty.
    rewrite checkedReminders_none_due by (by rewrite Hempty).
    by rewrite with_reminders_same.
  - case_bool_decide as Hfire; [reflexivity |]. cbn [fst].
    rewrite checkedReminders_none_due, with_reminders_same; [done |].
    apply nil_length_inv. lia.
Qed.

Lemma checkReminders_no_update (task : Task.t) :
  snd (fst (checkReminders now granted task)) = false ->
  fst (fst (checkReminders now granted task)) = task.
Proof.
  unfold checkReminders.
  destruct (Task.completed task || _); [done |].
  case_bool_decide; [done | done].
Qed.

(** Whether or not [hasUpdates] is set, the collection after a tick is
    the collection of the checked tasks. *)
Lemma reminderTick_tasks (currentTasks : list Task.t) :
  fst (reminderTick now granted currentTasks)
  = List.map (fun task => fst (fst (checkReminders now granted task)))
      currentTasks.
Proof.
  unfold reminderTick. cbn [fst]. rewrite List.map_map.
  destruct (existsb _ _) eqn:Hupd; [reflexivity |].
  induction currentTasks as [| t ts IH]; [reflexivity |].
  cbn [List.map existsb] in *. apply orb_false_elim in Hupd as [Ht Hts].
  by rewrite checkReminders_no_update, <- IH.
Qed.





End TickFacts.

(** * Missing ids *)

(** C9.  When no task of the collection has the given id,
    [handleToggleTask], [handleUpdateTask] (for a snapshot with that id)
    and [handleDeleteTask] return the collection as it is; the first two
    draw no identifier, read no clock and leave every label array as it
    is. *)
Theorem handlers_missing_id (LocalTZA : Z) (toLocaleDateString : Z -> string)
    (lists : list TaskList.t) (labels : list Label.t) (id : string)
    (prev : list Task.t) (w : World) :
  (forall t, t ∈ prev -> Task.id t <> id) ->
  handleToggleTask LocalTZA id prev w = (prev, w)
  /\ (forall u, Task.id u = id ->
        handleUpdateTask toLocaleDateString lists labels u prev w = (prev, w))
  /\ handleDeleteTask id prev = prev.
Proof.
  intros Hnone. split_and!.
  - by apply handleToggleTask_not_found.
  - intros u <-. by apply handleUpdateTask_not_found.
  - by apply handleDeleteTask_not_found.
Qed.

(** * The calendar at known dates *)

(** 2024-01-01T00:00:00Z is 1704067200000 ms after the epoch, a Monday. *)
Example Date_UTC_2024_01_01 :
  Date_UTC 2024 0 1 = 1704067200000
  /\ JSDate.getFullYear 0 (Date_UTC 2024 0 1) = 2024
  /\ JSDate.getMonth 0 (Date_UTC 2024 0 1) = 0
  /\ JSDate.getDate 0 (Date_UTC 2024 0 1) = 1
  /\ JSDate.getDay 0 (Date_UTC 2024 0 1) = 1.
Proof. vm_compute. done. Qed.

(** The epoch is Thursday 1970-01-01; the millisecond before it belongs
    to Wednesday 1969-12-31. *)
Example calendar_around_epoch :
  (JSDate.getFullYear 0 0, JSDate.getMonth 0 0, JSDate.getDate 0 0,
   JSDate.getDay 0 0) = (1970, 0, 1, 4)
  /\ (JSDate.getFullYear 0 (-1), JSDate.getMonth 0 (-1), JSDate.getDate 0 (-1),
      JSDate.getDay 0 (-1)) = (1969, 11, 31, 3).
Proof. vm_compute. done. Qed.

(** A month after 2024-01-31 overflows February into 2024-03-02; a year
    after 2024-02-29 is 2025-03-01. *)
Example calculateNextDueDate_overflow :
  calculateNextDueDate 0 (Some (Date_UTC 2024 0 31)) Recurrence.Monthly None
  = Some (Date_UTC 2024 2 2)
  /\ calculateNextDueDate 0 (Some (Date_UTC 2024 1 29)) Recurrence.Yearly None
     = Some (Date_UTC 2025 2 1).
Proof. vm_compute. done. Qed.

(** Custom without a configuration returns the anchor unchanged, and an
    absent anchor yields no date. *)
Example calculateNextDueDate_no_advance :
  calculateNextDueDate 0 (Some (Date_UTC 2024 0 1)) Recurrence.Custom None
  = Some (Date_UTC 2024 0 1)
  /\ calculateNextDueDate 0 None Recurrence.Daily None = None.
Proof. vm_compute. done. Qed.

(** * The statements at the sample data *)


(** From Friday 2024-01-05 the Weekdays rule lands on Monday 2024-01-08,
    in three rounds. *)
Example weekdays_from_friday :
  weekdaysLoop 0 3 (Date_UTC 2024 0 5) = Some (Date_UTC 2024 0 8, 3%nat).
Proof. vm_compute. reflexivity. Qed.



Lemma handleToggleTask_twice_witness :
  let once := fst (handleToggleTask 0 "P" [weeklyTask; plainTask] sampleWorld) in
  let twice := fst (handleToggleTask 0 "P" once sampleWorld) in
  length twice = length [weeklyTask; plainTask]
  /\ (forall j, j <> 1%nat -> twice !! j = [weeklyTask; plainTask] !! j)
  /\ exists task2,
       twice !! 1%nat = Some task2
       /\ Task.completed task2 = Task.completed plainTask
       /\ length (Task.logs task2) = (length (Task.logs plainTask) + 2)%nat
       /\ exists l1 l2,
            task2 = Task.with_logs plainTask (Task.logs plainTask ++ [l1; l2]).
Proof.
  apply (handleToggleTask_twice 0 "P" [weeklyTask; plainTask] sampleWorld
           sampleWorld 1%nat plainTask); reflexivity.
Defined.

Lemma handlers_missing_id_witness :
  handleToggleTask 0 "Z" [weeklyTask; plainTask] sampleWorld
  = ([weeklyTask; plainTask], sampleWorld)
  /\ (forall u, Task.id u = "Z" ->
        handleUpdateTask sampleLocaleDate [] [] u [weeklyTask; plainTask]
          sampleWorld
        = ([weeklyTask; plainTask], sampleWorld))
  /\ handleDeleteTask "Z" [weeklyTask; plainTask] = [weeklyTask; plainTask].
Proof.
  apply (handlers_missing_id 0 sampleLocaleDate [] [] "Z"
           [weeklyTask; plainTask] sampleWorld).
  intros t Ht. apply list_elem_of_In in Ht.
  destruct Ht as [<- | [<- | []]]; discriminate.
Defined.

Lemma handleUpdateTask_logs_witness :
  exists t',
    fst (handleUpdateTask sampleLocaleDate [] [] renamedReport [reportTask]
           sampleWorld) !! 0%nat
    = Some t'
    /\ Task.logs t'
       = Task.logs reportTask ++ keptLogs reportTask renamedReport
         ++ synthesizedLogs sampleLocaleDate [] [] reportTask renamedReport
              (snd (handleUpdateTask sampleLocaleDate [] [] renamedReport
                      (take 0 [reportTask]) sampleWorld)).
Proof.
  apply (handleUpdateTask_logs sampleLocaleDate [] [] renamedReport
           [reportTask] sampleWorld 0%nat reportTask); reflexivity.
Defined.

(** Changing only the title appends exactly one entry, with the new
    title; the modal's placeholder entry is dropped. *)
Example handleUpdateTask_title_only :
  (fun t => TaskLog.message <$> Task.logs t)
  <$> fst (handleUpdateTask sampleLocaleDate [] [] renamedReport [reportTask]
             sampleWorld)
  = [ ["Task created"; "Renamed to " +:+ quoted "File annual report"] ].
Proof. vm_compute. reflexivity. Qed.

(** C4 at its failing input.  The stored task has the one attachment
    [specPdf]; the snapshot has the one attachment [notesLink] instead.
    An attachment was added and one was removed, by id, and the update
    logs neither: the stored log list is all the updated task has. *)
Theorem handleUpdateTask_swapped_attachment_unlogged :
  attachmentsNotIn (Task.attachments reportTask) (Task.attachments swappedReport)
  = [notesLink]
  /\ attachmentsNotIn (Task.attachments swappedReport)
       (Task.attachments reportTask)
     = [specPdf]
  /\ fst (handleUpdateTask sampleLocaleDate [] [] swappedReport [reportTask]
            sampleWorld)
     = [Task.with_logs swappedReport (Task.logs reportTask)].
Proof. vm_compute. done. Qed.


(** In the search view with an empty query a collection of one task is
    shown whole. *)
Lemma filteredTasks_search_empty_not_nil :
  filteredTasks 0 compareStrings [plainTask] [] ∅ "search" EmptyString smart 0
  <> [].
Proof. vm_compute. discriminate. Qed.

Lemma filteredTasks_smart_order_witness :
  (Task.completed plainTask = true -> Task.completed mediumDue = true)
  /\ (Task.completed plainTask = Task.completed mediumDue ->
      prioOrder (Task.priority mediumDue) <= prioOrder (Task.priority plainTask))
  /\ (Task.completed plainTask = Task.completed mediumDue ->
      prioOrder (Task.priority plainTask) = prioOrder (Task.priority mediumDue) ->
      dueDate_le plainTask mediumDue).
Proof.
  apply (filteredTasks_smart_order 0 compareStrings sortSample [] ∅ "all"
           EmptyString 0 0%nat 1%nat plainTask mediumDue).
  - vm_compute. reflexivity.
  - vm_compute. reflexivity.
  - lia.
Defined.

(** The smart sort of the sample: High and undated, Medium and due, and
    the completed task last. *)
Example filteredTasks_smart_sample :
  filteredTasks 0 compareStrings sortSample [] ∅ "all" EmptyString smart 0
  = [plainTask; mediumDue; doneTask].
Proof. vm_compute. reflexivity. Qed.



(** * More on the calendar and the recurrence calculator *)

Section CalendarFields.
Import JSDate JSDateFacts.






End CalendarFields.

Section CalculatorMore.
Import JSDate JSDateFacts.
Variable LocalTZA : Z.





End CalculatorMore.

(** * More on the views *)

Section ViewHelpers.
Import JSDate JSDateFacts.
Variable LocalTZA : Z.

Lemma fields_of_Day (t1 t2 : Z) :
  Day t1 = Day t2 ->
  YearFromTime t1 = YearFromTime t2
  /\ MonthFromTime t1 = MonthFromTime t2
  /\ DateFromTime t1 = DateFromTime t2.
Proof.
  intros Hd.
  assert (YearFromTime t1 = YearFromTime t2) as HY
    by (unfold YearFromTime; by rewrite Hd).
  assert (DayWithinYear t1 = DayWithinYear t2) as Hw
    by (unfold DayWithinYear; by rewrite Hd, HY).
  assert (InLeapYear t1 = InLeapYear t2) as Hl
    by (unfold InLeapYear; by rewrite HY).
  assert (MonthFromTime t1 = MonthFromTime t2) as HM
    by (unfold MonthFromTime; by rewrite Hw, Hl).
  split; [exact HY |]. split; [exact HM |].
  unfold DateFromTime. by rewrite Hw, Hl, HM.
Qed.

(** X4.  [isToday] holds of a present date exactly when it falls on the
    local calendar day of the clock, whatever the time of day; an
    absent date is never today. *)
Theorem isToday_same_local_day (now : Z) (dateString : option Z) :
  isToday LocalTZA now dateString = true
  <-> exists d, dateString = Some d /\ localDay LocalTZA d = localDay LocalTZA now.
Proof.
  unfold isToday, localDay, getDate, getMonth, getFullYear.
  destruct dateString as [d |]; [| split; [done | by intros (? & ? & _)]].
  set (ld := LocalTime LocalTZA d). set (ln := LocalTime LocalTZA now).
  rewrite !andb_true_iff, !Z.eqb_eq. split.
  - intros [[HD HM] HY]. exists d. split; [done |].
    pose proof (MakeDay_fields ld 0) as H1.
    pose proof (MakeDay_fields ln 0) as H2.
    rewrite HD, HM, HY, H2 in H1. fold ld. lia.
  - intros (d' & [= <-] & Hday).
    apply fields_of_Day in Hday. tauto.
Qed.


Lemma setHours_midnight (t : Z) :
  setHours LocalTZA t 0 0 0 0 = localDay LocalTZA t * msPerDay - LocalTZA.
Proof. unfold setHours, localDay, UTC, MakeDate, MakeTime. lia. Qed.

(** X6.  A task item is overdue exactly when the task is not completed
    and its due date falls on a local calendar day before the current
    one: a task due at any time of the current day is not overdue. *)
Theorem isOverdue_earlier_day (now : Z) (task : Task.t) :
  isOverdue LocalTZA now task = true
  <-> Task.completed task = false
      /\ exists d, Task.dueDate task = Some d
                   /\ localDay LocalTZA d < localDay LocalTZA now.
Proof.
  unfold isOverdue. destruct (Task.dueDate task) as [d |];
    [| split; [done | by intros (_ & ? & ? & _)]].
  destruct (Task.completed task); [split; [done | by intros [? _]] |].
  rewrite setHours_midnight, Z.ltb_lt. unfold localDay, LocalTime, Day, msPerDay.
  split.
  - intros H. split; [done |]. exists d. split; [done |]. zdiv.
  - intros (_ & d' & [= <-] & H). zdiv.
Qed.

End ViewHelpers.

Lemma List_filter_sublist {A} (f : A -> bool) (l : list A) :
  sublist (List.filter f l) l.
Proof.
  induction l as [| x l IH]; [constructor |]. cbn [List.filter].
  destruct (f x); by constructor.
Qed.

Lemma List_filter_elem_of {A} (f : A -> bool) (l : list A) (x : A) :
  x ∈ List.filter f l <-> x ∈ l /\ f x = true.
Proof. rewrite !list_elem_of_In. apply filter_In. Qed.

Section ViewMore.
Variable LocalTZA : Z.
Variable localeCompare : string -> string -> Z.

Ltac order_cases :=
  unfold cmp_le, compareTasks, compareDueDate;
  repeat match goal with
         | |- context [prioOrder (Task.priority ?a)] =>
             generalize (prioOrder (Task.priority a)); intro
         | |- context [Task.createdAt ?a] =>
             generalize (Task.createdAt a); intro
         end;
  repeat match goal with
         | |- context [Task.completed ?a] => destruct (Task.completed a)
         | |- context [Task.dueDate ?a] => destruct (Task.dueDate a)
         end;
  cbn [eqb negb]; repeat case_match; try lia.

Lemma compareTasks_keyed_total (sortBy : SortOption) (a b : Task.t) :
  sortBy <> alphabetical ->
  cmp_le (compareTasks localeCompare sortBy) a b
  \/ cmp_le (compareTasks localeCompare sortBy) b a.
Proof. intros Hs. destruct sortBy; try done; order_cases. Qed.

Lemma compareTasks_keyed_trans (sortBy : SortOption) (a b c : Task.t) :
  sortBy <> alphabetical ->
  cmp_le (compareTasks localeCompare sortBy) a b ->
  cmp_le (compareTasks localeCompare sortBy) b c ->
  cmp_le (compareTasks localeCompare sortBy) a c.
Proof. intros Hs. destruct sortBy; try done; order_cases. Qed.

Lemma compareTasks_keyed_le (sortBy : SortOption) (a b : Task.t) :
  cmp_le (compareTasks localeCompare sortBy) a b ->
  (Task.completed a = true -> Task.completed b = true)
  /\ (Task.completed a = Task.completed b -> modeOrder sortBy a b).
Proof.
  destruct sortBy; unfold modeOrder, dueDate_le; order_cases;
    intros Hle; split_and?; intros; try done; try lia.
Qed.

(** X7.  Under every sort mode with a fixed key (smart, due date,
    priority, added), of two tasks in the derived list the earlier one
    is completed only if the later one is, and when they agree on
    completion they are in the order of the mode: ascending by due date
    with undated last, descending by priority, or newest first. *)
Theorem filteredTasks_mode_order (tasks : list Task.t) (labels : list Label.t)
    (store : gmap ArrayRef (list string)) (activeView searchQuery : string)
    (sortBy : SortOption) (now : Z) (i j : nat) (a b : Task.t) :
  sortBy <> alphabetical ->
  let shown :=
    filteredTasks LocalTZA localeCompare tasks labels store activeView
      searchQuery sortBy now in
  shown !! i = Some a ->
  shown !! j = Some b ->
  (i < j)%nat ->
  (Task.completed a = true -> Task.completed b = true)
  /\ (Task.completed a = Task.completed b -> modeOrder sortBy a b).
Proof.
  intros Hs shown Hi Hj Hlt. apply compareTasks_keyed_le.
  subst shown. unfold filteredTasks in Hi, Hj.
  case_bool_decide; [done |].
  eapply StronglySorted_lookup; [| exact Hi | exact Hj | exact Hlt].
  apply Array_sort_StronglySorted.
  - intros x y. by apply compareTasks_keyed_total.
  - intros x y z. by apply compareTasks_keyed_trans.
Qed.

(** The tasks a view keeps, before sorting. *)
Lemma filteredTasks_Permutation_filter (tasks : list Task.t)
    (labels : list Label.t) (store : gmap ArrayRef (list string))
    (activeView searchQuery : string) (sortBy : SortOption) (now : Z) :
  exists keep : Task.t -> bool,
    filteredTasks LocalTZA localeCompare tasks labels store activeView
      searchQuery sortBy now
    ≡ₚ List.filter keep tasks
    /\ (activeView <> "all" -> activeView <> "search" ->
        forall t, keep t = true -> Task.completed t = false)
    /\ (activeView = "all" ->
        existsb (fun l => bool_decide (Label.id l = "all")) labels = false ->
        forall t, keep t = true).
Proof.
  unfold filteredTasks.
  case_bool_decide as Hact.
  { exists (fun _ => false). split_and!.
    - induction tasks; [reflexivity | done].
    - done.
    - intros ->. discriminate. }
  assert (forall l : list Task.t, l = List.filter (fun _ => true) l) as Hall.
  { induction l as [| x l IH]; [done |]. cbn. by rewrite <- IH. }
  case_bool_decide as Hsearch.
  { case_bool_decide.
    - eexists. split; [apply Array_sort_Permutation |].
      split; [done | intros ->; discriminate].
    - exists (fun _ => true). split; [| split; [done | done]].
      rewrite Array_sort_Permutation. by rewrite <- Hall. }
  destruct (existsb _ labels) eqn:Hlabel.
  { eexists. split; [apply Array_sort_Permutation |]. split.
    - intros _ _ t [_ Hc]%andb_true_iff. by apply negb_true_iff.
    - intros -> Hno. congruence. }
  repeat case_bool_decide; subst;
    try (eexists; split; [apply Array_sort_Permutation |]; split;
         [ intros _ _ t Hk;
           repeat match type of Hk with
                  | match ?x with _ => _ end = true => destruct x; [| done]
                  end;
           apply andb_true_iff in Hk as [_ Hc]; by apply negb_true_iff
         | intros; congruence ]).
  exists (fun _ => true). split; [| split; [done | done]].
  rewrite Array_sort_Permutation. by rewrite <- Hall.
Qed.

(** X8.  Every view other than "all" and "search" shows incomplete tasks
    only, the "today" view included; the list of any view is drawn from
    the collection, each task at most as often as the collection holds
    it; and the "all" view, when no label has the id "all", holds the
    whole collection. *)
Theorem filteredTasks_drawn_from_collection (tasks : list Task.t)
    (labels : list Label.t) (store : gmap ArrayRef (list string))
    (activeView searchQuery : string) (sortBy : SortOption) (now : Z) :
  let shown :=
    filteredTasks LocalTZA localeCompare tasks labels store activeView
      searchQuery sortBy now in
  shown ⊆+ tasks
  /\ (activeView <> "all" -> activeView <> "search" ->
      forall t, t ∈ shown -> Task.completed t = false)
  /\ (activeView = "all" ->
      existsb (fun l => bool_decide (Label.id l = "all")) labels = false ->
      shown ≡ₚ tasks).
Proof.
  intros shown. subst shown.
  destruct (filteredTasks_Permutation_filter tasks labels store activeView
              searchQuery sortBy now) as (keep & Hperm & Hinc & Hall).
  split_and!.
  - rewrite Hperm. apply sublist_submseteq, List_filter_sublist.
  - intros H1 H2 t Ht. rewrite Hperm in Ht.
    apply List_filter_elem_of in Ht as [_ Hk]. by apply Hinc.
  - intros H1 H2. rewrite Hperm.
    specialize (Hall H1 H2). clear -Hall.
    induction tasks as [| x l IH]; [done |]. cbn. by rewrite Hall, IH.
Qed.

End ViewMore.

(** * More on the reminder scheduler *)

Section TickMore.
Variable now : Z.

Lemma checkedReminders_none_left (rs : list Reminder.t) (r' : Reminder.t) :
  r' ∈ checkedReminders now rs -> dueUnfired now r' = false.
Proof.
  unfold checkedReminders. rewrite list_elem_of_In, in_map_iff.
  intros (r & Hr' & Hin). destruct (existsb _ _) eqn:Hex.
  - by subst r'.
  - subst r'. destruct (dueUnfired now r) eqn:Hdue; [| done].
    exfalso. apply not_true_iff_false in Hex. apply Hex.
    apply existsb_exists. exists r. split.
    + by apply filter_In.
    + by apply bool_decide_eq_true_2.
Qed.



(** X9.  After a tick at [now], no reminder of an incomplete task is
    both unfired and due: a reminder still unfired lies after [now], so
    a task item that still shows active reminders has one in the
    future.  This holds whatever ids the reminders carry. *)
Theorem reminderTick_none_left_due (granted : bool) (tasks : list Task.t)
    (task' : Task.t) :
  task' ∈ fst (reminderTick now granted tasks) ->
  Task.completed task' = false ->
  (forall r, r ∈ Task.reminders task' ->
             Reminder.fired r = false -> now < Reminder.time r)
  /\ (hasActiveReminders task' = true ->
      exists r, r ∈ Task.reminders task'
                /\ Reminder.fired r = false /\ now < Reminder.time r).
Proof.
  rewrite reminderTick_tasks, list_elem_of_In, in_map_iff.
  intros (task & <- & _) Hc. rewrite checkReminders_task in *.
  destruct (Task.completed task) eqn:Hct; [congruence |].
  cbn [Task.with_reminders Task.reminders].
  assert (forall r, r ∈ checkedReminders now (Task.reminders task) ->
                    Reminder.fired r = false -> now < Reminder.time r) as Hall.
  { intros r Hr Hf. apply checkedReminders_none_left in Hr.
    unfold dueUnfired in Hr. rewrite Hf in Hr. cbn in Hr.
    apply Z.leb_gt in Hr. lia. }
  split; [exact Hall |].
  unfold hasActiveReminders. cbn [Task.with_reminders Task.reminders].
  intros [_ Hex]%andb_true_iff. apply existsb_exists in Hex as (r & Hin & Hf).
  apply negb_true_iff in Hf. apply list_elem_of_In in Hin.
  exists r. split_and!; [done | done | by apply Hall].
Qed.


Lemma checkReminders_notifications (granted : bool) (task : Task.t) :
  snd (checkReminders now granted task)
  = if granted then (fun _ => notificationOf task) <$> dueReminders now task
    else [].
Proof.
  unfold checkReminders, dueReminders. fold (dueUnfired now).
  destruct (Task.completed task); [by destruct granted |]. cbn [orb].
  case_bool_decide as Hempty.
  - apply nil_length_inv in Hempty. rewrite Hempty. by destruct granted.
  - case_bool_decide as Hfire; [by destruct granted |].
    assert (List.filter (dueUnfired now) (Task.reminders task) = []) as ->
      by (apply nil_length_inv; lia).
    by destruct granted.
Qed.

Lemma checkReminders_task_permission (granted : bool) (task : Task.t) :
  fst (fst (checkReminders now granted task))
  = fst (fst (checkReminders now true task)).
Proof. by rewrite !checkReminders_task. Qed.

(** X11.  Permission only decides what is shown: the collection after a
    tick is the same with and without it.  With permission the tick
    raises one notification per due unfired reminder of each incomplete
    task, in order, titled "Reminder: " and the task's title; without
    it none, though those reminders are marked fired all the same. *)
Theorem reminderTick_permission (tasks : list Task.t) :
  fst (reminderTick now false tasks) = fst (reminderTick now true tasks)
  /\ snd (reminderTick now false tasks) = []
  /\ snd (reminderTick now true tasks)
     = flat_map (fun task =>
           (fun _ => notificationOf task) <$> dueReminders now task)
         tasks.
Proof.
  split_and!.
  - rewrite !reminderTick_tasks. apply map_ext. intros task.
    apply checkReminders_task_permission.
  - unfold reminderTick. cbn [snd]. rewrite List.map_map.
    induction tasks as [| t ts IH]; [done |]. cbn [List.map concat].
    by rewrite checkReminders_notifications, IH.
  - unfold reminderTick. cbn [snd]. rewrite List.map_map.
    induction tasks as [| t ts IH]; [done |]. cbn [List.map concat flat_map].
    rewrite checkReminders_notifications, IH. reflexivity.
Qed.

End TickMore.

(** * More on the task store *)

Section StoreMore.
Variable LocalTZA : Z.
Variable toLocaleDateString : Z -> string.
Variable lists : list TaskList.t.
Variable labels : list Label.t.

Ltac run :=
  unfold mbind, M_bind, mret, M_ret, randomUUID, Date_now; cbn [fst snd].

(** The collection after a toggle that spawns. *)
Lemma handleToggleTask_spawn (id : string) (prev : list Task.t) (w : World)
    (i : nat) (task : Task.t) :
  list_find (fun t => Task.id t = id) prev = Some (i, task) ->
  Task.completed task = false ->
  Task.recurrence task <> Recurrence.None ->
  exists next,
    fst (handleToggleTask LocalTZA id prev w)
    = next :: <[i := toggledTask task w]> prev
    /\ Task.id next = uuid_of w (S (uuid_next w))
    /\ Task.completed next = false
    /\ Task.dueDate next
       = calculateNextDueDate LocalTZA
           (Some (default (clock_of w (S (clock_next w))) (Task.dueDate task)))
           (Task.recurrence task) (Task.recurrenceCustom task).
Proof.
  intros Hfind Hc Hr. unfold handleToggleTask, toggledTask. rewrite Hfind. run.
  rewrite Hc. rewrite bool_decide_eq_true_2 by done. cbn [negb andb].
  destruct (Task.dueDate task) as [due |] eqn:Hdue; run.
  - destruct (calculateNextDueDate_is_Some LocalTZA due (Task.recurrence task)
                (Task.recurrenceCustom task)) as [d Hd].
    cbn [default]. unfold Datatypes.id. rewrite Hd.
    cbn [fst snd clock_next uuid_next uuid_of clock_of].
    eexists. split; [reflexivity |]. by cbn.
  - destruct (calculateNextDueDate_is_Some LocalTZA
                (clock_of w (S (clock_next w))) (Task.recurrence task)
                (Task.recurrenceCustom task)) as [d Hd].
    cbn [clock_next clock_of default]. rewrite Hd.
    cbn [fst snd clock_next uuid_next uuid_of clock_of].
    eexists. split; [reflexivity |]. by cbn.
Qed.

Lemma toggledTask_id (task : Task.t) (w : World) :
  Task.id (toggledTask task w) = Task.id task.
Proof. reflexivity. Qed.

Lemma fmap_id_insert (prev : list Task.t) (i : nat) (task task' : Task.t) :
  prev !! i = Some task ->
  Task.id task' = Task.id task ->
  Task.id <$> <[i := task']> prev = Task.id <$> prev.
Proof.
  intros Hi Hid. rewrite list_fmap_insert, Hid.
  apply list_insert_id. by rewrite list_lookup_fmap, Hi.
Qed.

(** The ids after a toggle: those before, with the next identifier but
    one of the host in front when a task was spawned. *)
Lemma handleToggleTask_ids (id : string) (prev : list Task.t) (w : World) :
  Task.id <$> fst (handleToggleTask LocalTZA id prev w) = Task.id <$> prev
  \/ Task.id <$> fst (handleToggleTask LocalTZA id prev w)
     = uuid_of w (S (uuid_next w)) :: (Task.id <$> prev).
Proof.
  destruct (list_find (fun t => Task.id t = id) prev) as [[i task] |] eqn:Hfind.
  - pose proof Hfind as (Hi & _ & _)%list_find_Some.
    destruct (Task.completed task) eqn:Hc.
    { left. rewrite (handleToggleTask_in_place _ _ _ _ _ _ Hfind) by auto.
      by apply fmap_id_insert with (task := task). }
    destruct (decide (Task.recurrence task = Recurrence.None)) as [Hr | Hr].
    { left. rewrite (handleToggleTask_in_place _ _ _ _ _ _ Hfind) by auto.
      by apply fmap_id_insert with (task := task). }
    right.
    destruct (handleToggleTask_spawn id prev w i task Hfind Hc Hr)
      as (next & -> & Hid & _).
    cbn [fmap list_fmap]. rewrite Hid. f_equal.
    by apply fmap_id_insert with (task := task).
  - left. unfold handleToggleTask. by rewrite Hfind.
Qed.

Lemma handleUpdateTask_ids_eq (u : Task.t) (prev : list Task.t) (w : World) :
  Task.id <$> fst (handleUpdateTask toLocaleDateString lists labels u prev w)
  = Task.id <$> prev.
Proof.
  unfold handleUpdateTask. revert w.
  induction prev as [| t prev IH]; intros w; [reflexivity |].
  rewrite mapM_M_cons. cbn [fst fmap list_fmap]. f_equal; [| apply IH].
  case_bool_decide as Hid; [| reflexivity].
  by rewrite updateStored_result.
Qed.

(** X12.  [handleUpdateTask] keeps the sequence of task ids: it adds no
    task, removes none and moves none, whatever the snapshot, and a
    snapshot that flips [completed] spawns nothing. *)
Theorem handleUpdateTask_keeps_ids (u : Task.t) (prev : list Task.t)
    (w : World) :
  Task.id <$> fst (handleUpdateTask toLocaleDateString lists labels u prev w)
  = Task.id <$> prev.
Proof. apply handleUpdateTask_ids_eq. Qed.

Lemma handleDeleteTask_sublist (id : string) (prev : list Task.t) :
  sublist (handleDeleteTask id prev) prev.
Proof. apply List_filter_sublist. Qed.

(** X13.  When the ids of the collection are pairwise distinct they stay
    so after a toggle, provided the identifier the host hands to a
    spawned task is not in use, and after an update and a delete in any
    case. *)
Theorem handlers_keep_ids_distinct (id : string) (u : Task.t)
    (prev : list Task.t) (w : World) :
  NoDup (Task.id <$> prev) ->
  (uuid_of w (S (uuid_next w)) ∉ Task.id <$> prev ->
   NoDup (Task.id <$> fst (handleToggleTask LocalTZA id prev w)))
  /\ NoDup (Task.id <$>
            fst (handleUpdateTask toLocaleDateString lists labels u prev w))
  /\ NoDup (Task.id <$> handleDeleteTask id prev).
Proof.
  intros Hnd. split_and!.
  - intros Hfresh. destruct (handleToggleTask_ids id prev w) as [-> | ->];
      [done | by constructor].
  - by rewrite handleUpdateTask_ids_eq.
  - eapply sublist_NoDup; [exact Hnd |].
    apply fmap_sublist, handleDeleteTask_sublist.
Qed.

(** X14.  [handleDeleteTask] removes every task with the id, not only
    the first, and nothing else: what remains are the other tasks in
    their order; a second delete, a toggle or an update with that id
    then finds nothing and changes nothing. *)
Theorem handleDeleteTask_removes_all (id : string) (prev : list Task.t)
    (w : World) :
  let rest := handleDeleteTask id prev in
  sublist rest prev
  /\ (forall t, t ∈ rest <-> t ∈ prev /\ Task.id t <> id)
  /\ handleDeleteTask id rest = rest
  /\ handleToggleTask LocalTZA id rest w = (rest, w)
  /\ (forall u, Task.id u = id ->
        handleUpdateTask toLocaleDateString lists labels u rest w = (rest, w)).
Proof.
  intros rest.
  assert (forall t, t ∈ rest <-> t ∈ prev /\ Task.id t <> id) as Hmem.
  { intros t. subst rest. unfold handleDeleteTask.
    rewrite List_filter_elem_of, bool_decide_eq_true. done. }
  assert (forall t, t ∈ rest -> Task.id t <> id) as Hnone
    by (intros t Ht; by apply Hmem in Ht as [_ ?]).
  split_and!.
  - apply handleDeleteTask_sublist.
  - exact Hmem.
  - by apply handleDeleteTask_not_found.
  - by apply handleToggleTask_not_found.
  - intros u <-. by apply handleUpdateTask_not_found.
Qed.



End StoreMore.

(** * More on the update *)

Lemma List_filter_Permutation_ext {A} (f g : A -> bool) (l1 l2 : list A) :
  l1 ≡ₚ l2 -> (forall x, f x = g x) ->
  List.filter f l1 ≡ₚ List.filter g l2.
Proof.
  intros Hperm Hfg. induction Hperm as [| x l1 l2 Hp IH | x y l | l1 l2 l3 H1 IH1 H2 IH2].
  - reflexivity.
  - cbn [List.filter]. rewrite Hfg. destruct (g x); by rewrite IH.
  - cbn [List.filter]. rewrite !Hfg.
    assert (List.filter f l = List.filter g l) as -> by (by apply List.filter_ext).
    destruct (g x), (g y); try reflexivity. apply Permutation_swap.
  - rewrite IH1. rewrite <- IH2. apply Permutation_refl'.
    by apply List.filter_ext.
Qed.

Lemma labelsNotIn_Permutation (old old' new new' : list string) :
  old ≡ₚ old' -> new ≡ₚ new' -> labelsNotIn old new ≡ₚ labelsNotIn old' new'.
Proof.
  intros Ho Hn. apply List_filter_Permutation_ext; [done |].
  intros id. f_equal. apply bool_decide_ext. by rewrite Ho.
Qed.

Lemma labelsNotIn_nil (old new : list string) :
  (forall id, id ∈ new -> id ∈ old) -> labelsNotIn old new = [].
Proof.
  intros Hsub. unfold labelsNotIn.
  induction new as [| id new IH]; [done |]. cbn [List.filter].
  rewrite bool_decide_eq_true_2 by (apply Hsub; left). cbn [negb].
  apply IH. intros id' Hid'. apply Hsub. by right.
Qed.

Lemma readLabels_alter_sort (r r' : ArrayRef)
    (store : gmap ArrayRef (list string)) :
  readLabels r (alter (Array_sort compareStrings) r' store)
  ≡ₚ readLabels r store.
Proof.
  unfold readLabels. destruct (decide (r' = r)) as [-> | Hne].
  - rewrite lookup_alter_eq. destruct (store !! r); cbn; [| reflexivity].
    apply Array_sort_Permutation.
  - by rewrite lookup_alter_ne.
Qed.

Section UpdateMore.
Variable toLocaleDateString : Z -> string.
Variable lists : list TaskList.t.
Variable labels : list Label.t.

Lemma diffLabels_same_members (t u : Task.t) (ts : Z)
    (newLogs : list TaskLog.t) (w : World) :
  (forall id, id ∈ readLabels (Task.labelIds u) (arrays w)
              <-> id ∈ readLabels (Task.labelIds t) (arrays w)) ->
  fst (diffLabels labels t u ts newLogs w) = newLogs.
Proof.
  intros Hsame. unfold diffLabels, mbind, M_bind, sortLabels.
  cbn [fst snd arrays].
  case_bool_decide as Hne; [| done].
  fold (labelsNotIn
          (Array_sort compareStrings
             (readLabels (Task.labelIds t) (arrays w)))
          (Array_sort compareStrings
             (readLabels (Task.labelIds u)
                (alter (Array_sort compareStrings) (Task.labelIds t)
                   (arrays w))))).
  match goal with
  | |- context [labelsNotIn ?o ?n] =>
      fold (labelsNotIn n o);
      rewrite (labelsNotIn_nil o n), (labelsNotIn_nil n o)
  end.
  - done.
  - intros id. rewrite !Array_sort_Permutation, readLabels_alter_sort.
    apply Hsame.
  - intros id. rewrite !Array_sort_Permutation, readLabels_alter_sort.
    apply Hsame.
Qed.

(** X16.  The comparison of the labels logs one "Added label" entry per
    label id of the snapshot that the stored task does not have, then
    one "Removed label" entry per id of the stored task that the
    snapshot does not have, each with the label's current name; when
    both arrays have the same members, in whatever order, it logs
    nothing. *)
Theorem diffLabels_messages (t u : Task.t) (ts : Z) (newLogs : list TaskLog.t)
    (w : World) :
  let old := readLabels (Task.labelIds t) (arrays w) in
  let new := readLabels (Task.labelIds u) (arrays w) in
  (exists added removed,
     TaskLog.message <$> fst (diffLabels labels t u ts newLogs w)
     = (TaskLog.message <$> newLogs)
       ++ ((fun id => "Added label " +:+ quoted (labelName labels id))
           <$> added)
       ++ ((fun id => "Removed label " +:+ quoted (labelName labels id))
           <$> removed)
     /\ added ≡ₚ labelsNotIn old new
     /\ removed ≡ₚ labelsNotIn new old)
  /\ ((forall id, id ∈ new <-> id ∈ old) ->
      fst (diffLabels labels t u ts newLogs w) = newLogs).
Proof.
  intros old new. unfold diffLabels, mbind, M_bind, sortLabels. cbn [fst snd arrays].
  set (olds := Array_sort compareStrings (readLabels (Task.labelIds t) (arrays w))).
  set (news := Array_sort compareStrings
                 (readLabels (Task.labelIds u)
                    (alter (Array_sort compareStrings) (Task.labelIds t)
                       (arrays w)))).
  assert (olds ≡ₚ old) as Ho by apply Array_sort_Permutation.
  assert (news ≡ₚ new) as Hn.
  { subst news. rewrite Array_sort_Permutation. apply readLabels_alter_sort. }
  fold (labelsNotIn olds news). fold (labelsNotIn news olds).
  split.
  - exists (if bool_decide (olds <> news) then labelsNotIn olds news else []),
           (if bool_decide (olds <> news) then labelsNotIn news olds else []).
    case_bool_decide as Hne.
    + split; [| split; by apply labelsNotIn_Permutation].
      match goal with
      | |- context [forEach ?f ?l newLogs ?w0] =>
          pose proof (forEach_addLog_messages
                        (fun id => "Added label "
                                   +:+ quoted (labelName labels id))
                        ts l newLogs w0) as Hadd;
          destruct (forEach f l newLogs w0) as [logs1 w1]
      end.
      cbn [fst] in Hadd.
      rewrite (forEach_addLog_messages
                 (fun id => "Removed label " +:+ quoted (labelName labels id))).
      rewrite Hadd. by rewrite <- app_assoc.
    + cbn [fst fmap list_fmap]. rewrite app_nil_r.
      split; [done |].
      rewrite <- (labelsNotIn_Permutation olds old news new Ho Hn).
      rewrite <- (labelsNotIn_Permutation news new olds old Hn Ho).
      rewrite Hne. by rewrite labelsNotIn_nil.
  - intros Hsame. case_bool_decide as Hne; [| done].
    rewrite (labelsNotIn_nil olds news), (labelsNotIn_nil news olds).
    + done.
    + intros id. rewrite Ho, Hn. apply Hsame.
    + intros id. rewrite Ho, Hn. apply Hsame.
Qed.

Lemma subtasksMap_foldl_notin (l : list SubTask.t)
    (m : gmap string SubTask.t) (k : string) :
  k ∉ SubTask.id <$> l ->
  foldl (fun m s => <[SubTask.id s := s]> m) m l !! k = m !! k.
Proof.
  revert m. induction l as [| x l IH]; intros m Hk; [done |].
  cbn [foldl]. cbn in Hk. apply not_elem_of_cons in Hk as [Hne Hk].
  rewrite IH by done. by rewrite lookup_insert_ne.
Qed.

(** With pairwise distinct ids, the map of the subtasks has each
    subtask under its id. *)
Lemma subtasksMap_lookup_NoDup (l : list SubTask.t) (s : SubTask.t) :
  NoDup (SubTask.id <$> l) -> s ∈ l ->
  subtasksMap l !! SubTask.id s = Some s.
Proof.
  unfold subtasksMap. generalize (∅ : gmap string SubTask.t).
  induction l as [| x l IH]; intros m Hnd Hs; [by apply elem_of_nil in Hs |].
  cbn in Hnd. apply NoDup_cons in Hnd as [Hx Hnd]. cbn [foldl].
  apply elem_of_cons in Hs as [-> | Hs].
  - rewrite subtasksMap_foldl_notin by done. by rewrite lookup_insert_eq.
  - by apply IH.
Qed.

Lemma forEach_quiet {A S} (f : A -> S -> M S) (l : list A) (s : S) (w : World) :
  (forall x s' w', x ∈ l -> f x s' w' = (s', w')) ->
  forEach f l s w = (s, w).
Proof.
  revert s w. induction l as [| x l IH]; intros s w Hf; [done |].
  cbn [forEach]. unfold mbind, M_bind. rewrite Hf by left.
  apply IH. intros y s' w' Hy. apply Hf. by right.
Qed.

Lemma diffSubtasks_same (t u : Task.t) (ts : Z) (newLogs : list TaskLog.t)
    (w : World) :
  Task.subtasks u = Task.subtasks t ->
  NoDup (SubTask.id <$> Task.subtasks t) ->
  diffSubtasks t u ts newLogs w = (newLogs, w).
Proof.
  intros Hsub Hnd. unfold diffSubtasks. rewrite Hsub.
  unfold mbind, M_bind. rewrite forEach_quiet.
  - apply forEach_quiet. intros os s' w' Hos.
    by rewrite subtasksMap_lookup_NoDup.
  - intros ns s' w' Hns. unfold diffSubtask.
    rewrite subtasksMap_lookup_NoDup by done.
    unfold mbind, M_bind, mret, M_ret.
    rewrite !bool_decide_eq_false_2 by (intros H; by apply H). done.
Qed.

(** Agreeing besides the title, the comparison is that of the titles. *)
Lemma diffLogs_agreeBesidesTitle (t u : Task.t) (ts : Z) (w : World) :
  agreeBesidesTitle t u (arrays w) ->
  fst (diffLogs toLocaleDateString lists labels t u ts w)
  = fst (diffTitle t u ts [] w).
Proof.
  intros (Hdesc & Hdue & Hdead & Hprio & Hlist & Hest & Hact & Hlab & Hatt
          & Hsub & Hnd).
  unfold diffLogs, mbind at 1, M_bind at 1.
  assert (arrays (snd (diffTitle t u ts [] w)) = arrays w) as Harr.
  { assert (keepsArrays (diffTitle t u ts [])) as Hk
      by (unfold diffTitle; keeps).
    apply Hk. }
  destruct (diffTitle t u ts [] w) as [l1 w1]. cbn [fst snd] in *.
  unfold diffDescription, diffDueDate, diffDeadline, diffPriority, diffList,
    diffEstimate, diffActualTime.
  rewrite Hdesc, Hdue, Hdead, Hprio, Hlist, Hest, Hact.
  rewrite !bool_decide_eq_false_2 by (intros H; by apply H).
  unfold mbind, M_bind, mret, M_ret.
  pose proof (diffLabels_same_members t u ts l1 w1) as Hl.
  rewrite Harr in Hl. specialize (Hl Hlab).
  destruct (diffLabels labels t u ts l1 w1) as [l2 w2]. cbn [fst] in Hl.
  subst l2. rewrite diffAttachments_same_length by done.
  by rewrite diffSubtasks_same.
Qed.

Lemma agreeBesidesTitle_Permutation (t u : Task.t)
    (store store' : gmap ArrayRef (list string)) :
  (forall r, readLabels r store' ≡ₚ readLabels r store) ->
  agreeBesidesTitle t u store -> agreeBesidesTitle t u store'.
Proof.
  intros Hperm (? & ? & ? & ? & ? & ? & ? & Hlab & ?).
  repeat (split; [done |]). split; [| done].
  intros id. rewrite !Hperm. apply Hlab.
Qed.


End UpdateMore.

(** * Adding tasks, and the detail modal *)

Section AddFacts.

Lemma newArray_fresh (held : gset ArrayRef) (w : World) :
  (fresh (held ∪ dom (arrays w)) ∉ held)
  /\ arrays w !! fresh (held ∪ dom (arrays w)) = None.
Proof.
  pose proof (is_fresh (held ∪ dom (arrays w))) as Hf.
  split.
  - intros H. apply Hf, elem_of_union. by left.
  - apply not_elem_of_dom. intros H. apply Hf, elem_of_union. by right.
Qed.

(** X18.  [handleAddTask] puts exactly one new task in front of the
    collection and leaves the tasks it had, and every array of the
    store, as they were.  The title is the partial's when it has the
    key, even an empty one, and "Untitled Task" only when it has not;
    the priority defaults to None.  For a partial without the keys the
    handler fills in, the task has the host's next identifier, is not
    completed, does not recur, has no subtasks, reminders or
    attachments, a single "Task created" log entry, the list "inbox"
    under a built-in view and the active view's id otherwise, and a new
    empty label array that no other task holds. *)
Theorem handleAddTask_prepends (activeView : string) (p : PartialTask.t)
    (prev : list Task.t) (w : World) :
  exists newTask,
    fst (handleAddTask activeView p prev w) = newTask :: prev
    /\ (forall r, is_Some (arrays w !! r) ->
          arrays (snd (handleAddTask activeView p prev w)) !! r
          = arrays w !! r)
    /\ Task.title newTask = default "Untitled Task" (PartialTask.title p)
    /\ Task.priority newTask = default Priority.None (PartialTask.priority p)
    /\ (plainPartial p ->
        Task.id newTask = uuid_of w (uuid_next w)
        /\ Task.completed newTask = false
        /\ Task.recurrence newTask = Recurrence.None
        /\ Task.subtasks newTask = []
        /\ Task.reminders newTask = []
        /\ Task.attachments newTask = []
        /\ TaskLog.message <$> Task.logs newTask = ["Task created"]
        /\ Task.listId newTask
           = (if addsToInbox activeView then "inbox" else activeView)
        /\ (Task.labelIds newTask ∉ labelRefs prev)
        /\ arrays (snd (handleAddTask activeView p prev w))
             !! Task.labelIds newTask = Some []).
Proof.
  unfold handleAddTask, mbind, M_bind, mret, M_ret, randomUUID, Date_now,
    newArray. cbn [fst snd arrays uuid_of uuid_next clock_of clock_next].
  set (held := labelRefs prev ∪ _).
  destruct (newArray_fresh held w) as [Hheld Hnone].
  eexists. split; [reflexivity |]. split_and!.
  - intros r [l Hr]. rewrite lookup_insert_ne; [done |]. congruence.
  - cbn [spreadPartial Task.title].
    by destruct (PartialTask.title p).
  - cbn [spreadPartial Task.priority].
    by destruct (PartialTask.priority p).
  - intros (Hid & Hlist & Hc & Hrem & Hsub & Hrec & Hlab & Hatt & Hlogs).
    cbn [spreadPartial Task.id Task.completed Task.recurrence Task.subtasks
         Task.reminders Task.attachments Task.logs Task.listId Task.labelIds].
    rewrite Hid, Hlist, Hc, Hrem, Hsub, Hrec, Hlab, Hatt, Hlogs.
    cbn [default]. split_and!; try reflexivity.
    + intros H. apply Hheld. subst held. apply elem_of_union. by left.
    + by rewrite lookup_insert_eq.
Qed.

(** X19.  Deleting the task [handleAddTask] has just added, by the
    identifier the host gave it, gives back the collection as it was,
    provided that identifier was not in use. *)
Theorem handleAddTask_then_delete (activeView : string) (p : PartialTask.t)
    (prev : list Task.t) (w : World) :
  PartialTask.id p = None ->
  uuid_of w (uuid_next w) ∉ Task.id <$> prev ->
  handleDeleteTask (uuid_of w (uuid_next w))
    (fst (handleAddTask activeView p prev w))
  = prev.
Proof.
  intros Hid Hfresh.
  unfold handleAddTask, mbind, M_bind, mret, M_ret, randomUUID, Date_now,
    newArray. cbn [fst snd arrays uuid_of uuid_next clock_of clock_next].
  unfold handleDeleteTask. cbn [List.filter spreadPartial Task.id].
  rewrite Hid. cbn [default].
  rewrite bool_decide_eq_false_2 by (intros H; by apply H).
  apply handleDeleteTask_not_found. intros t Ht Heq. apply Hfresh.
  rewrite <- Heq. by apply list_elem_of_fmap_2.
Qed.

End AddFacts.

Section ModalFacts.
Variable toLocaleDateString : Z -> string.
Variable lists : list TaskList.t.
Variable labels : list Label.t.

Lemma modalHandleUpdate_result (updates : PartialTask.t) (task : Task.t)
    (w : World) :
  exists entry,
    Task.logs (fst (modalHandleUpdate updates task w)) = Task.logs task ++ [entry]
    /\ TaskLog.message entry = "Updated task details"
    /\ Task.id (fst (modalHandleUpdate updates task w))
       = default (Task.id task) (PartialTask.id updates).
Proof.
  unfold modalHandleUpdate, mbind, M_bind, mret, M_ret, randomUUID, Date_now.
  cbn [fst]. eexists. split; [reflexivity |]. by split.
Qed.

(** The snapshot a modal session leaves: the id of the task it opened,
    and its logs followed by one placeholder entry per edit. *)
Lemma modalSession_result (edits : list PartialTask.t) (task : Task.t)
    (w : World) :
  Forall (fun p => PartialTask.id p = None) edits ->
  Task.id (fst (modalSession edits task w)) = Task.id task
  /\ exists entries,
       Task.logs (fst (modalSession edits task w)) = Task.logs task ++ entries
       /\ length entries = length edits
       /\ Forall (fun e => TaskLog.message e = "Updated task details") entries.
Proof.
  unfold modalSession. revert task w.
  induction edits as [| p edits IH]; intros task w Hids; cbn [forEach].
  - unfold mret, M_ret. cbn. split; [done |]. exists []. by rewrite app_nil_r.
  - apply Forall_cons in Hids as [Hp Hids]. unfold mbind, M_bind.
    destruct (modalHandleUpdate_result p task w) as (entry & Hlogs & Hmsg & Hid).
    destruct (modalHandleUpdate p task w) as [task1 w1]. cbn [fst] in *.
    destruct (IH task1 w1 Hids) as (Hid1 & entries & Hl & Hn & Hall).
    rewrite Hp in Hid. cbn in Hid. split; [congruence |].
    exists (entry :: entries). rewrite Hl, Hlogs, <- app_assoc.
    split; [done |]. split; [cbn; lia | by constructor].
Qed.

Lemma keptLogs_placeholders (t u : Task.t) (entries : list TaskLog.t) :
  Task.logs u = Task.logs t ++ entries ->
  Forall (fun e => TaskLog.message e = "Updated task details") entries ->
  keptLogs t u = [].
Proof.
  intros Hlogs Hall. unfold keptLogs. rewrite Hlogs.
  rewrite List.filter_app.
  assert (forall l : list TaskLog.t,
             (forall e, e ∈ l -> e ∈ Task.logs t) ->
             List.filter (fun l0 =>
                 negb (existsb (fun l1 =>
                           bool_decide (TaskLog.id l1 = TaskLog.id l0))
                         (Task.logs t))
                 && bool_decide (TaskLog.message l0 <> "Updated task details"))
               l = []) as Hstored.
  { induction l as [| e l IH]; intros Hsub; [done |]. cbn [List.filter].
    assert (existsb (fun l1 => bool_decide (TaskLog.id l1 = TaskLog.id e))
              (Task.logs t) = true) as ->.
    { apply existsb_exists. exists e. split.
      - apply list_elem_of_In, Hsub. left.
      - by apply bool_decide_eq_true_2. }
    cbn [negb andb]. apply IH. intros e' He'. apply Hsub. by right. }
  rewrite Hstored by done. cbn [app].
  clear Hlogs.
  induction Hall as [| e entries He Hall IH]; [done |]. cbn [List.filter].
  rewrite (bool_decide_eq_false_2 (TaskLog.message e <> _))
    by (intros H; by apply H).
  rewrite andb_false_r. exact IH.
Qed.

(** X20.  However many edits are made in the detail modal, each one
    appending a placeholder entry to the snapshot, saving stores none of
    them and repeats no stored entry: the task's logs afterwards are the
    stored logs followed by the entries the comparison synthesizes. *)
Theorem modal_save_drops_placeholders (edits : list PartialTask.t)
    (wm : World) (prev : list Task.t) (w : World) (i : nat) (t : Task.t) :
  prev !! i = Some t ->
  Forall (fun p => PartialTask.id p = None) edits ->
  let snapshot := fst (modalSession edits t wm) in
  length (Task.logs snapshot) = (length (Task.logs t) + length edits)%nat
  /\ exists t',
       fst (handleUpdateTask toLocaleDateString lists labels snapshot prev w)
         !! i = Some t'
       /\ Task.logs t'
          = Task.logs t
            ++ synthesizedLogs toLocaleDateString lists labels t snapshot
                 (snd (handleUpdateTask toLocaleDateString lists labels
                         snapshot (take i prev) w)).
Proof.
  intros Hi Hids snapshot.
  destruct (modalSession_result edits t wm Hids)
    as (Hid & entries & Hlogs & Hlen & Hall).
  fold snapshot in Hid, Hlogs. split.
  - rewrite Hlogs, length_app. lia.
  - unfold handleUpdateTask. eexists. split; [by apply mapM_M_lookup |].
    cbv beta. rewrite bool_decide_eq_true_2 by done.
    rewrite updateStored_result. cbn [Task.with_logs Task.with_completed_logs
                                       Task.logs].
    by rewrite (keptLogs_placeholders t snapshot entries).
Qed.

End ModalFacts.

(** * Deleting lists and labels *)

Lemma setListId_same (t : Task.t) : setListId t (Task.listId t) = t.
Proof. destruct t; reflexivity. Qed.

Lemma filter_moved_Permutation (id : string) (tasks : list Task.t) :
  id <> "inbox" ->
  List.filter (inList "inbox")
    (List.map (fun t =>
         if bool_decide (Task.listId t = id) then setListId t "inbox" else t)
       tasks)
  ≡ₚ List.filter (inList "inbox") tasks
     ++ List.map (fun t => setListId t "inbox") (List.filter (inList id) tasks).
Proof.
  intros Hid. induction tasks as [| t tasks IH]; [done |].
  cbn [List.map List.filter].
  destruct (decide (Task.listId t = id)) as [Hl | Hl].
  - rewrite (bool_decide_eq_true_2 _ Hl).
    assert (inList "inbox" (setListId t "inbox") = negb (Task.completed t))
      as -> by (unfold inList; cbn; by rewrite bool_decide_eq_true_2).
    assert (inList "inbox" t = false) as ->
        by (unfold inList; by rewrite bool_decide_eq_false_2 by congruence).
    assert (inList id t = negb (Task.completed t)) as ->
        by (unfold inList; by rewrite bool_decide_eq_true_2).
    destruct (Task.completed t); cbn [negb]; [exact IH |].
    cbn [List.map]. rewrite <- Permutation_middle. by constructor.
  - rewrite (bool_decide_eq_false_2 _ Hl).
    assert (inList id t = false) as ->
        by (unfold inList; by rewrite bool_decide_eq_false_2).
    destruct (inList "inbox" t); [cbn [app]; by constructor | exact IH].
Qed.

Section ListFacts.
Variable LocalTZA : Z.
Variable localeCompare : string -> string -> Z.

Lemma filteredTasks_list_view (tasks : list Task.t) (labels : list Label.t)
    (store : gmap ArrayRef (list string)) (view searchQuery : string)
    (sortBy : SortOption) (now : Z) :
  view ∉ reservedViews ->
  view ∉ Label.id <$> labels ->
  filteredTasks LocalTZA localeCompare tasks labels store view searchQuery
    sortBy now
  ≡ₚ List.filter (inList view) tasks.
Proof.
  intros Hres Hlab. unfold filteredTasks, reservedViews in *.
  rewrite !not_elem_of_cons in Hres.
  destruct Hres as (H1 & H2 & H3 & H4 & H5 & H6 & _).
  rewrite (bool_decide_eq_false_2 (view = "activity")) by done.
  rewrite (bool_decide_eq_false_2 (view = "search")) by done.
  assert (existsb (fun l => bool_decide (Label.id l = view)) labels = false)
    as ->.
  { apply not_true_iff_false. intros (l & Hin & Hl)%existsb_exists.
    apply bool_decide_eq_true_1 in Hl. apply Hlab. rewrite <- Hl.
    by apply list_elem_of_fmap_2, list_elem_of_In. }
  rewrite (bool_decide_eq_false_2 (view = "today")) by done.
  rewrite (bool_decide_eq_false_2 (view = "next7")) by done.
  rewrite (bool_decide_eq_false_2 (view = "upcoming")) by done.
  rewrite (bool_decide_eq_false_2 (view = "all")) by done.
  case_bool_decide as Hinbox; rewrite Array_sort_Permutation;
    [subst view |]; reflexivity.
Qed.

(** X21.  [handleDeleteList] deletes no task: the collection keeps its
    length and every task its position and every field but the list;
    the tasks of the deleted list are filed under "inbox", tasks of
    other lists are untouched, and the list is gone from the lists.
    Unless the deleted id is "inbox" itself, no task refers to it
    afterwards and it is not the active view.  For a custom list (an id
    that is no reserved view name and no label's id) the inbox view then
    shows what it showed before together with what the view of the
    deleted list showed. *)
Theorem handleDeleteList_moves_to_inbox (id : string) (lists : list TaskList.t)
    (tasks : list Task.t) (activeView : string) (labels : list Label.t)
    (store : gmap ArrayRef (list string)) (searchQuery : string)
    (sortBy : SortOption) (now : Z) :
  let '(lists', tasks', view') := handleDeleteList id lists tasks activeView in
  (forall l, l ∈ lists' <-> l ∈ lists /\ TaskList.id l <> id)
  /\ length tasks' = length tasks
  /\ (forall i t, tasks !! i = Some t ->
        tasks' !! i
        = Some (if bool_decide (Task.listId t = id) then setListId t "inbox"
                else t))
  /\ (id <> "inbox" ->
      (forall t', t' ∈ tasks' -> Task.listId t' <> id) /\ view' <> id)
  /\ (id <> "inbox" -> id ∉ reservedViews ->
      id ∉ Label.id <$> labels -> "inbox" ∉ Label.id <$> labels ->
      filteredTasks LocalTZA localeCompare tasks' labels store "inbox"
        searchQuery sortBy now
      ≡ₚ filteredTasks LocalTZA localeCompare tasks labels store "inbox"
           searchQuery sortBy now
         ++ ((fun t => setListId t "inbox")
             <$> filteredTasks LocalTZA localeCompare tasks labels store id
                   searchQuery sortBy now)).
Proof.
  unfold handleDeleteList. split_and!.
  - intros l. rewrite List_filter_elem_of.
    split; intros [H1 H2]; (split; [done |]).
    + by apply bool_decide_eq_true_1 in H2.
    + by apply bool_decide_eq_true_2.
  - apply length_map.
  - intros i t Hi. change (List.map ?f ?l) with (f <$> l).
    by rewrite list_lookup_fmap, Hi.
  - intros Hid. split.
    + intros t' Ht'. change (List.map ?f ?l) with (f <$> l) in Ht'.
      apply list_elem_of_fmap in Ht' as (t & -> & _).
      case_bool_decide; [| done]. cbn. congruence.
    + case_bool_decide; congruence.
  - intros Hid Hres Hlab Hinbox.
    assert ("inbox" ∉ reservedViews) as Hres'.
    { unfold reservedViews. rewrite !not_elem_of_cons.
      split_and!; try discriminate. apply not_elem_of_nil. }
    rewrite !(filteredTasks_list_view _ labels store "inbox") by done.
    rewrite (filteredTasks_list_view _ labels store id) by done.
    by apply filter_moved_Permutation.
Qed.

End ListFacts.

Section LabelFacts.

(** What [removeLabelFromTasks] gives when it gives a result: the
    store grows, the arrays of the references [held] are as before, and
    each task is the old one with a new array of its own. *)
Lemma removeLabelFromTasks_result (id : string) (held : gset ArrayRef)
    (prev : list Task.t) :
  forall (store : gmap ArrayRef (list string)) (out : list Task.t)
         (store' : gmap ArrayRef (list string)),
  labelRefs prev ⊆ held ->
  removeLabelFromTasks id held prev store = Some (out, store') ->
  store ⊆ store'
  /\ Forall2 (fun t t' =>
        t' = setLabelIds t (Task.labelIds t')
        /\ (Task.labelIds t' ∉ held)
        /\ store !! Task.labelIds t' = None
        /\ is_Some (store !! Task.labelIds t)
        /\ store' !! Task.labelIds t'
           = Some (List.filter (fun lid => bool_decide (lid <> id))
                     (readLabels (Task.labelIds t) store)))
       prev out
  /\ NoDup (Task.labelIds <$> out).
Proof.
  induction prev as [| t prev IH]; intros store out store' Hheld Hrun.
  { injection Hrun as <- <-. split; [done |]. split; constructor. }
  cbn [removeLabelFromTasks] in Hrun.
  destruct (store !! Task.labelIds t) as [labelIds |] eqn:Hlab; [| done].
  set (r := fresh (held ∪ dom store)) in Hrun.
  assert ((r ∉ held) /\ store !! r = None) as [Hr Hnone].
  { pose proof (is_fresh (held ∪ dom store)) as Hf. fold r in Hf. split.
    - intros H. apply Hf, elem_of_union. by left.
    - apply not_elem_of_dom. intros H. apply Hf, elem_of_union. by right. }
  set (store1 := <[r := _]> store) in Hrun.
  destruct (removeLabelFromTasks id held prev store1) as [[rest store2] |]
    eqn:Hrest; [| done].
  injection Hrun as <- <-.
  assert (labelRefs prev ⊆ held) as Hheld'.
  { intros x Hx. apply Hheld. unfold labelRefs in *. cbn [fmap list_fmap].
    rewrite list_to_set_cons. apply elem_of_union. by right. }
  assert (Task.labelIds t ∈ held) as Ht.
  { apply Hheld. unfold labelRefs. cbn [fmap list_fmap].
    rewrite list_to_set_cons. apply elem_of_union. left.
    by apply elem_of_singleton. }
  destruct (IH store1 rest store2 Hheld' Hrest) as (Hsub & Hall & Hnodup).
  assert (store ⊆ store1) as Hsub1 by by apply insert_subseteq.
  split; [by transitivity store1 |]. split.
  - constructor.
    + cbn [setLabelIds spreadPartial Task.labelIds PartialTask.labelIds default].
      split; [done |]. split; [done |]. split; [done |].
      split; [by eexists |].
      eapply lookup_weaken; [| exact Hsub].
      subst store1. rewrite lookup_insert_eq. unfold readLabels.
      by rewrite Hlab.
    + apply Forall2_same_length_lookup in Hall as [Hlen Hall].
      apply Forall2_same_length_lookup. split; [done |].
      intros i u u' Hu Hu'.
      destruct (Hall i u u' Hu Hu') as (Heq & Hfresh & Hnew & Hsome & Hstored).
      apply list_elem_of_lookup_2 in Hu.
      split; [done |]. split; [done |].
      assert (Task.labelIds u ∈ held) as Hu_held.
      { apply Hheld'. unfold labelRefs. apply elem_of_list_to_set.
        by apply list_elem_of_fmap_2. }
      assert (store1 !! Task.labelIds u = store !! Task.labelIds u) as Hsame.
      { subst store1. apply lookup_insert_ne. congruence. }
      split; [by eapply lookup_weaken_None |].
      split; [by rewrite <- Hsame |].
      rewrite Hstored. unfold readLabels. by rewrite Hsame.
  - cbn [fmap list_fmap]. apply NoDup_cons. split; [| exact Hnodup].
    cbn [setLabelIds spreadPartial Task.labelIds PartialTask.labelIds default].
    intros (u' & Hru & Hu')%list_elem_of_fmap.
    apply list_elem_of_lookup_1 in Hu' as [i Hu'].
    eapply Forall2_lookup_r in Hall as (u & _ & _ & _ & Hnew & _);
      [| exact Hu'].
    subst store1. rewrite <- Hru, lookup_insert_eq in Hnew. done.
Qed.

Lemma removeLabelFromTasks_is_Some (id : string) (held : gset ArrayRef)
    (prev : list Task.t) :
  forall store : gmap ArrayRef (list string),
  labelRefs prev ⊆ held ->
  is_Some (removeLabelFromTasks id held prev store)
  <-> Forall (fun t => is_Some (store !! Task.labelIds t)) prev.
Proof.
  induction prev as [| t prev IH]; intros store Hheld.
  { split; [constructor | by eexists]. }
  assert (labelRefs prev ⊆ held) as Hheld'.
  { intros x Hx. apply Hheld. unfold labelRefs in *. cbn [fmap list_fmap].
    rewrite list_to_set_cons. apply elem_of_union. by right. }
  assert (fresh (held ∪ dom store) ∉ held) as Hr.
  { pose proof (is_fresh (held ∪ dom store)) as Hf.
    intros H. apply Hf, elem_of_union. by left. }
  assert (forall l,
            Forall (fun t => is_Some (<[fresh (held ∪ dom store) := l]> store
                                        !! Task.labelIds t)) prev
            <-> Forall (fun t => is_Some (store !! Task.labelIds t)) prev)
    as Hsame.
  { intros l. rewrite !Forall_forall.
    split; intros H u Hu; specialize (H u Hu);
      (rewrite lookup_insert_ne in *; [done |]);
      intros Heq; apply Hr; rewrite Heq;
      apply Hheld'; unfold labelRefs; apply elem_of_list_to_set;
      by apply list_elem_of_fmap_2. }
  cbn [removeLabelFromTasks]. rewrite Forall_cons.
  destruct (store !! Task.labelIds t) as [labelIds |] eqn:Hlab.
  - rewrite <- (Hsame (List.filter (fun lid => bool_decide (lid <> id))
                         labelIds)).
    rewrite <- IH by done.
    destruct (removeLabelFromTasks id held prev _) as [[rest store2] |].
    + split; [| by eexists]. intros _. split; by eexists.
    + split; [by intros [? ?] | by intros [_ [? ?]]].
  - split; [by intros [? ?] | by intros [[? ?] _]].
Qed.

(** X22.  When every task has a label array, [handleDeleteLabel] gives
    every task a new array of its own: the task's label ids without the
    deleted one, in their order.  The other fields of the tasks are
    kept, no two tasks share an array afterwards, and the arrays of the
    store are as they were, so nothing that still holds an old array
    sees a change.  The label is gone from the labels and is not the
    active view. *)
Theorem handleDeleteLabel_fresh_arrays (id : string) (labels : list Label.t)
    (tasks : list Task.t) (store : gmap ArrayRef (list string))
    (activeView : string) :
  Forall (fun t => is_Some (store !! Task.labelIds t)) tasks ->
  exists tasks' store',
    handleDeleteLabel id labels tasks store activeView
    = (List.filter (fun l => bool_decide (Label.id l <> id)) labels,
       Some (tasks', store'),
       if bool_decide (activeView = id) then "inbox" else activeView)
    /\ length tasks' = length tasks
    /\ (forall i t, tasks !! i = Some t ->
          exists t', tasks' !! i = Some t'
            /\ t' = setLabelIds t (Task.labelIds t')
            /\ readLabels (Task.labelIds t') store'
               = List.filter (fun lid => bool_decide (lid <> id))
                   (readLabels (Task.labelIds t) store)
            /\ (id ∉ readLabels (Task.labelIds t') store')
            /\ (Task.labelIds t' ∉ labelRefs tasks))
    /\ NoDup (Task.labelIds <$> tasks')
    /\ (forall r, is_Some (store !! r) -> store' !! r = store !! r).
Proof.
  intros Hall. unfold handleDeleteLabel.
  apply (removeLabelFromTasks_is_Some id (labelRefs tasks) tasks store) in Hall
    as [[tasks' store'] Hrun]; [| done].
  destruct (removeLabelFromTasks_result id (labelRefs tasks) tasks store
              tasks' store' ltac:(done) Hrun) as (Hsub & Hpair & Hnodup).
  exists tasks', store'. rewrite Hrun. split; [done |]. split_and!.
  - symmetry. by eapply Forall2_length.
  - intros i t Hi.
    eapply Forall2_lookup_l in Hpair
      as (t' & Hi' & Heq & Hfresh & _ & _ & Hstored); [| exact Hi].
    exists t'. split; [done |]. split; [done |].
    assert (readLabels (Task.labelIds t') store'
            = List.filter (fun lid => bool_decide (lid <> id))
                (readLabels (Task.labelIds t) store)) as Hread
        by (unfold readLabels at 1; by rewrite Hstored).
    split; [done |]. split; [| done].
    rewrite Hread. intros [_ Hne]%List_filter_elem_of.
    by apply bool_decide_eq_true_1 in Hne.
  - exact Hnodup.
  - intros r [l Hr]. rewrite Hr. by eapply lookup_weaken.
Qed.

(** X23.  [handleDeleteLabel] reads [t.labelIds.filter] of every task
    without the guard the other readers of the label array have: the
    task update fails exactly when some task has no label array. *)
Theorem handleDeleteLabel_fails_iff (id : string) (labels : list Label.t)
    (tasks : list Task.t) (store : gmap ArrayRef (list string))
    (activeView : string) :
  snd (fst (handleDeleteLabel id labels tasks store activeView)) = None
  <-> exists t, t ∈ tasks /\ store !! Task.labelIds t = None.
Proof.
  unfold handleDeleteLabel. cbn [fst snd].
  pose proof (removeLabelFromTasks_is_Some id (labelRefs tasks) tasks store
                ltac:(done)) as Hiff.
  rewrite eq_None_not_Some, Hiff. split.
  - intros Hnot. apply not_Forall_Exists in Hnot; [| intros; apply _].
    apply Exists_exists in Hnot as (t & Ht & Hnone). exists t.
    split; [done |]. by apply eq_None_not_Some.
  - intros (t & Ht & Hnone) Hall. rewrite Forall_forall in Hall.
    destruct (Hall t Ht) as [l Hl]. congruence.
Qed.

End LabelFacts.

(** * Sidebar counts and the activity log *)

Lemma foldl_insert_lookup {A V} (key : A -> string) (val : string -> V)
    (l : list A) (m : gmap string V) (k : string) :
  foldl (fun m x => <[key x := val (key x)]> m) m l !! k
  = if bool_decide (k ∈ key <$> l) then Some (val k) else m !! k.
Proof.
  revert m. induction l as [| x l IH]; intros m; cbn [foldl].
  { by rewrite bool_decide_eq_false_2 by apply not_elem_of_nil. }
  rewrite IH. cbn [fmap list_fmap].
  destruct (decide (k ∈ key <$> l)) as [Hin | Hin].
  - rewrite !bool_decide_eq_true_2; [done | by right | done].
  - rewrite (bool_decide_eq_false_2 _ Hin).
    destruct (decide (k = key x)) as [-> | Hne].
    + rewrite lookup_insert_eq, bool_decide_eq_true_2; [done | by left].
    + rewrite lookup_insert_ne by done.
      rewrite bool_decide_eq_false_2; [done |].
      by intros [? | ?]%elem_of_cons.
Qed.

Lemma foldl_push_lookup {A} (key : A -> string) (l : list A)
    (m : gmap string (list A)) (k : string) :
  foldl (fun groups item =>
      <[key item := default [] (groups !! key item) ++ [item]]> groups) m l
    !! k
  = match List.filter (fun x => bool_decide (key x = k)) l with
    | [] => m !! k
    | x :: xs => Some (default [] (m !! k) ++ x :: xs)
    end.
Proof.
  revert m. induction l as [| x l IH]; intros m; cbn [foldl List.filter];
    [done |].
  rewrite IH. case_bool_decide as Hk.
  - subst k. rewrite lookup_insert_eq. cbn [default].
    unfold Datatypes.id.
    destruct (List.filter _ l); [done |]. by rewrite <- app_assoc.
  - by rewrite lookup_insert_ne by done.
Qed.

Lemma StronglySorted_List_filter {A} (R : A -> A -> Prop) (f : A -> bool)
    (l : list A) :
  StronglySorted R l -> StronglySorted R (List.filter f l).
Proof.
  induction 1 as [| x l Hsorted IH Hx]; cbn [List.filter]; [constructor |].
  destruct (f x); [| exact IH]. constructor; [exact IH |].
  rewrite Forall_forall in *. intros y [Hy _]%List_filter_elem_of. by apply Hx.
Qed.

Lemma existsb_label_id (labels : list Label.t) (k : string) :
  existsb (fun l => bool_decide (Label.id l = k)) labels
  = bool_decide (k ∈ Label.id <$> labels).
Proof.
  induction labels as [| l labels IH]; cbn [existsb fmap list_fmap].
  { by rewrite bool_decide_eq_false_2 by apply not_elem_of_nil. }
  rewrite IH. apply eq_true_iff_eq.
  rewrite orb_true_iff, !bool_decide_eq_true, elem_of_cons.
  split; (intros [H | H]; [left | right]; done).
Qed.

Section CountFacts.
Variable LocalTZA : Z.
Variable localeCompare : string -> string -> Z.

(** X24.  When no list and no label has a reserved view name for its id,
    the sidebar has a count for "inbox", for "today" and for every list
    and label, and for nothing else; and each count is the number of
    tasks the view of that key shows on the same clock reading, whatever
    the search text and the sort mode. *)
Theorem taskCounts_match_views (tasks : list Task.t) (lists : list TaskList.t)
    (labels : list Label.t) (store : gmap ArrayRef (list string)) (now : Z)
    (searchQuery : string) (sortBy : SortOption) (k : string) :
  (forall id, id ∈ (TaskList.id <$> lists) ++ (Label.id <$> labels) ->
              id ∉ reservedViews) ->
  taskCounts LocalTZA tasks lists labels store now !! k
  = if bool_decide (k ∈ countKeys lists labels)
    then Some (length (filteredTasks LocalTZA localeCompare tasks labels store
                         k searchQuery sortBy now))
    else None.
Proof.
  intros Hres. unfold taskCounts, countKeys. cbv zeta.
  etrans;
    [exact (foldl_insert_lookup Label.id
              (fun id => length (List.filter (fun t =>
                   bool_decide (id ∈ readLabels (Task.labelIds t) store)
                   && negb (Task.completed t)) tasks)) labels _ k) |].
  cbv beta.
  assert ("inbox" ∉ reservedViews) as Hinbox.
  { unfold reservedViews.
    rewrite !not_elem_of_cons. split_and!; try discriminate.
    apply not_elem_of_nil. }
  destruct (decide (k ∈ Label.id <$> labels)) as [Hlab | Hlab].
  { rewrite (bool_decide_eq_true_2 _ Hlab).
    rewrite bool_decide_eq_true_2
      by (rewrite !elem_of_app; right; by right).
    f_equal. unfold filteredTasks.
    assert (k ∉ reservedViews) as Hk
        by (apply Hres; rewrite elem_of_app; by right).
    unfold reservedViews in Hk. rewrite !not_elem_of_cons in Hk.
    destruct Hk as (H1 & H2 & H3 & H4 & H5 & H6 & _).
    rewrite (bool_decide_eq_false_2 (k = "activity")) by done.
    rewrite (bool_decide_eq_false_2 (k = "search")) by done.
    rewrite existsb_label_id, (bool_decide_eq_true_2 _ Hlab).
    by rewrite Array_sort_Permutation. }
  rewrite (bool_decide_eq_false_2 _ Hlab).
  etrans;
    [exact (foldl_insert_lookup TaskList.id
              (fun id => length (List.filter (fun t =>
                   bool_decide (Task.listId t = id)
                   && negb (Task.completed t)) tasks)) lists _ k) |].
  cbv beta.
  destruct (decide (k ∈ TaskList.id <$> lists)) as [Hlist | Hlist].
  { rewrite (bool_decide_eq_true_2 _ Hlist).
    rewrite bool_decide_eq_true_2
      by (rewrite !elem_of_app; right; by left).
    f_equal.
    rewrite (filteredTasks_list_view LocalTZA localeCompare tasks labels store k);
      [done | | done].
    apply Hres. rewrite elem_of_app. by left. }
  rewrite (bool_decide_eq_false_2 _ Hlist).
  destruct (decide (k = "inbox")) as [-> | Hni].
  { rewrite lookup_insert_ne by discriminate. rewrite lookup_insert_eq.
    rewrite bool_decide_eq_true_2 by (rewrite elem_of_app; left; by left).
    f_equal.
    by rewrite (filteredTasks_list_view LocalTZA localeCompare tasks labels
                  store "inbox"). }
  destruct (decide (k = "today")) as [-> | Hnt].
  { rewrite lookup_insert_eq.
    rewrite bool_decide_eq_true_2
      by (rewrite elem_of_app; left; right; by left).
    f_equal. unfold filteredTasks.
    rewrite (bool_decide_eq_false_2 ("today" = "activity")) by discriminate.
    rewrite (bool_decide_eq_false_2 ("today" = "search")) by discriminate.
    rewrite existsb_label_id, (bool_decide_eq_false_2 _ Hlab).
    rewrite (bool_decide_eq_false_2 ("today" = "inbox")) by discriminate.
    rewrite (bool_decide_eq_true_2 ("today" = "today")) by done.
    by rewrite Array_sort_Permutation. }
  rewrite !lookup_insert_ne by done. rewrite lookup_empty.
  rewrite bool_decide_eq_false_2; [done |].
  rewrite !elem_of_app, !elem_of_cons, elem_of_nil. tauto.
Qed.

End CountFacts.

Section ActivityFacts.
Import JSDate JSDateFacts.
Variable LocalTZA : Z.
Variable formatGroupDate : Z -> string.

Lemma sameDateString_localDay (a b : Z) :
  sameDateString LocalTZA a b = true
  <-> localDay LocalTZA a = localDay LocalTZA b.
Proof.
  unfold sameDateString, localDay, getDate, getMonth, getFullYear.
  set (la := LocalTime LocalTZA a). set (lb := LocalTime LocalTZA b).
  rewrite !andb_true_iff, !Z.eqb_eq. split.
  - intros [[HY HM] HD].
    pose proof (MakeDay_fields la 0) as H1.
    pose proof (MakeDay_fields lb 0) as H2.
    rewrite HD, HM, HY, H2 in H1. lia.
  - intros Hday. apply fields_of_Day in Hday. tauto.
Qed.

(** X25.  The group of an activity-log entry goes by local calendar
    days: "Today" for an entry stamped on the day of the clock,
    "Yesterday" for one stamped on the day before, also when that day is
    in the month or year before, and the formatted date otherwise. *)
Theorem groupKeyOf_by_local_day (now : Z) (item : ActivityLogItem) :
  groupKeyOf LocalTZA formatGroupDate now item
  = let stamped := localDay LocalTZA (TaskLog.timestamp (log item)) in
    if bool_decide (stamped = localDay LocalTZA now) then "Today"
    else if bool_decide (stamped = localDay LocalTZA now - 1) then "Yesterday"
    else formatGroupDate (TaskLog.timestamp (log item)).
Proof.
  unfold groupKeyOf. cbv zeta.
  replace (getDate LocalTZA now - 1) with (getDate LocalTZA now + -1) by lia.
  rewrite setDate_getDate.
  assert (localDay LocalTZA (now + -1 * msPerDay) = localDay LocalTZA now - 1)
    as Hy by (unfold localDay, Day, LocalTime, msPerDay; zdiv).
  pose proof (sameDateString_localDay (TaskLog.timestamp (log item)) now) as H1.
  pose proof (sameDateString_localDay (TaskLog.timestamp (log item))
                (now + -1 * msPerDay)) as H2.
  rewrite Hy in H2.
  destruct (sameDateString _ _ now).
  - rewrite bool_decide_eq_true_2; [done | by apply H1].
  - rewrite bool_decide_eq_false_2
      by (intros H; apply H1 in H; discriminate).
    destruct (sameDateString _ _ _).
    + rewrite bool_decide_eq_true_2; [done | by apply H2].
    + rewrite bool_decide_eq_false_2; [done |].
      intros H; apply H2 in H; discriminate.
Qed.

(** X26.  Outside the activity view there are no groups.  In it, every
    log entry of every task is listed once for each time it is stored,
    the group of a key holds exactly the listed entries of that key, no
    group is empty, and within a group the entries are newest first. *)
Theorem groupedActivityLogs_partition (tasks : list Task.t)
    (activeView : string) (now : Z) :
  (activeView <> "activity" ->
   groupedActivityLogs LocalTZA formatGroupDate tasks activeView now = ∅)
  /\ allActivityLogs tasks
     ≡ₚ flat_map (fun task => List.map (activityItem task) (Task.logs task))
          tasks
  /\ (activeView = "activity" ->
      forall k,
        match groupedActivityLogs LocalTZA formatGroupDate tasks activeView now
                !! k with
        | Some group =>
            group <> []
            /\ group
               = List.filter (fun item =>
                     bool_decide
                       (groupKeyOf LocalTZA formatGroupDate now item = k))
                   (allActivityLogs tasks)
            /\ (forall i j a b,
                  group !! i = Some a -> group !! j = Some b -> (i < j)%nat ->
                  TaskLog.timestamp (log b) <= TaskLog.timestamp (log a))
        | None =>
            forall item, item ∈ allActivityLogs tasks ->
                         groupKeyOf LocalTZA formatGroupDate now item <> k
        end).
Proof.
  unfold groupedActivityLogs. split_and!.
  - intros Hv. by rewrite bool_decide_eq_true_2.
  - unfold allActivityLogs. apply Array_sort_Permutation.
  - intros -> k. rewrite bool_decide_eq_false_2 by (intros H; by apply H).
    rewrite (foldl_push_lookup (groupKeyOf LocalTZA formatGroupDate now)).
    rewrite lookup_empty. cbn [default app].
    destruct (List.filter _ (allActivityLogs tasks)) as [| x xs] eqn:Hf.
    + intros item Hitem Hk.
      assert (item ∈ @nil ActivityLogItem) as Hnil; [| by inversion Hnil].
      rewrite <- Hf. apply List_filter_elem_of. split; [done |].
      by apply bool_decide_eq_true_2.
    + split; [done |]. split; [done |].
      intros i j a b Hi Hj Hlt.
      assert (StronglySorted
                (cmp_le (fun a b : ActivityLogItem =>
                     TaskLog.timestamp (log b) - TaskLog.timestamp (log a)))
                (x :: xs)) as Hsorted.
      { rewrite <- Hf. apply StronglySorted_List_filter.
        apply Array_sort_StronglySorted.
        - intros c d. unfold cmp_le. lia.
        - intros c d e. unfold cmp_le. lia. }
      pose proof (StronglySorted_lookup _ _ i j a b Hsorted Hi Hj Hlt) as Hle.
      unfold cmp_le in Hle. lia.
Qed.

End ActivityFacts.

(** * Edits of the detail modal *)

Section ModalEdits.
Variable toLocaleDateString : Z -> string.
Variable lists : list TaskList.t.
Variable labels : list Label.t.

Lemma flipSubtask_twice (s : SubTask.t) : flipSubtask (flipSubtask s) = s.
Proof. destruct s as [i t c d]. unfold flipSubtask. cbn. by rewrite negb_involutive. Qed.

Lemma toggleSubtask_result (subId : string) (task : Task.t) (w : World) :
  exists entry,
    fst (toggleSubtask subId task w)
    = Task.with_logs
        (spreadPartial task
           (partialSubtasks
              (List.map (fun s =>
                   if bool_decide (SubTask.id s = subId) then flipSubtask s
                   else s)
                 (Task.subtasks task))))
        (Task.logs task ++ [entry])
    /\ TaskLog.message entry = "Updated task details".
Proof.
  unfold toggleSubtask, modalHandleUpdate, mbind, M_bind, mret, M_ret,
    randomUUID, Date_now. cbn [fst]. eexists. by split.
Qed.

(** X27.  Toggling a subtask in the modal changes the subtasks and the
    logs of the snapshot only, and flips every subtask of that id;
    toggling the same id again gives back the subtasks as they were,
    also when several subtasks share the id. *)
Theorem toggleSubtask_twice (subId : string) (task : Task.t) (w w' : World) :
  let once := fst (toggleSubtask subId task w) in
  let twice := fst (toggleSubtask subId once w') in
  Task.subtasks twice = Task.subtasks task
  /\ SubTask.id <$> Task.subtasks once = SubTask.id <$> Task.subtasks task
  /\ (forall s, s ∈ Task.subtasks task -> SubTask.id s = subId ->
                flipSubtask s ∈ Task.subtasks once)
  /\ exists entries,
       length entries = 2%nat
       /\ twice = Task.with_logs task (Task.logs task ++ entries).
Proof.
  intros once twice. subst once twice.
  destruct (toggleSubtask_result subId task w) as (e1 & -> & _).
  destruct (toggleSubtask_result subId
              (Task.with_logs
                 (spreadPartial task
                    (partialSubtasks
                       (List.map (fun s =>
                            if bool_decide (SubTask.id s = subId)
                            then flipSubtask s else s)
                          (Task.subtasks task))))
                 (Task.logs task ++ [e1])) w') as (e2 & -> & _).
  cbn. unfold Datatypes.id.
  assert (List.map (fun s =>
              if bool_decide (SubTask.id s = subId) then flipSubtask s else s)
            (List.map (fun s =>
                 if bool_decide (SubTask.id s = subId) then flipSubtask s
                 else s)
               (Task.subtasks task))
          = Task.subtasks task) as Htwice.
  { rewrite List.map_map. rewrite <- (List.map_id (Task.subtasks task)) at 2.
    apply map_ext. intros s.
    destruct (decide (SubTask.id s = subId)) as [Hs | Hs].
    - rewrite (bool_decide_eq_true_2 _ Hs). cbn [flipSubtask SubTask.id].
      rewrite (bool_decide_eq_true_2 _ Hs). apply flipSubtask_twice.
    - by rewrite !(bool_decide_eq_false_2 _ Hs). }
  split_and!.
  - exact Htwice.
  - change (List.map ?f ?l) with (f <$> l). rewrite <- list_fmap_compose.
    apply list_fmap_ext. intros _ s _. cbn. by case_bool_decide.
  - intros s Hin Hs. apply list_elem_of_In, in_map_iff. exists s.
    split; [by rewrite (bool_decide_eq_true_2 _ Hs) |].
    by apply list_elem_of_In.
  - exists [e1; e2]. split; [done |]. rewrite Htwice, <- app_assoc.
    by destruct task.
Qed.

(** The snapshot after a label toggle: a new array, the other fields
    and the arrays of the store kept. *)
Lemma toggleLabel_result (held : gset ArrayRef) (labelId : string)
    (task : Task.t) (w : World) :
  exists entry r,
    fst (toggleLabel held labelId task w)
    = Task.with_logs (spreadPartial task (partialLabelIds r))
        (Task.logs task ++ [entry])
    /\ TaskLog.message entry = "Updated task details"
    /\ (r ∉ held)
    /\ arrays w !! r = None
    /\ arrays (snd (toggleLabel held labelId task w))
       = <[r := if bool_decide
                     (labelId ∈ readLabels (Task.labelIds task) (arrays w))
                then List.filter (fun id => bool_decide (id <> labelId))
                       (readLabels (Task.labelIds task) (arrays w))
                else readLabels (Task.labelIds task) (arrays w) ++ [labelId]]>
           (arrays w).
Proof.
  assert ((fresh (held ∪ dom (arrays w)) ∉ held)
          /\ arrays w !! fresh (held ∪ dom (arrays w)) = None) as [H1 H2].
  { pose proof (is_fresh (held ∪ dom (arrays w))) as Hf. split.
    - intros H. apply Hf, elem_of_union. by left.
    - apply not_elem_of_dom. intros H. apply Hf, elem_of_union. by right. }
  unfold toggleLabel. case_bool_decide;
    unfold modalHandleUpdate, newArray, mbind, M_bind, mret, M_ret,
      randomUUID, Date_now; cbn [fst snd arrays];
    eexists _, _; (split; [reflexivity |]); done.
Qed.

(** X28.  Toggling a label twice in the modal and saving leaves no
    trace in the logs.  Each toggle makes a new array for the snapshot,
    so the stored task's array is not touched by the modal; after the
    second toggle the snapshot's array has the members the stored one
    has (the label moved to the end when the task had it), and for a
    stored task whose subtask ids are pairwise distinct the save
    synthesizes nothing and keeps none of the placeholders. *)
Theorem toggleLabel_twice_saves_quietly (held : gset ArrayRef)
    (labelId : string) (prev : list Task.t) (w : World) (i : nat)
    (t : Task.t) :
  prev !! i = Some t ->
  is_Some (arrays w !! Task.labelIds t) ->
  NoDup (SubTask.id <$> Task.subtasks t) ->
  let once := toggleLabel held labelId t w in
  let twice := toggleLabel held labelId (fst once) (snd once) in
  arrays (snd twice) !! Task.labelIds t = arrays w !! Task.labelIds t
  /\ (forall id, id ∈ readLabels (Task.labelIds (fst twice)) (arrays (snd twice))
                 <-> id ∈ readLabels (Task.labelIds t) (arrays w))
  /\ exists t',
       fst (handleUpdateTask toLocaleDateString lists labels (fst twice) prev
              (snd twice)) !! i = Some t'
       /\ TaskLog.message <$> Task.logs t' = TaskLog.message <$> Task.logs t.
Proof.
  intros Hi [stored Hstored] Hnodup once twice. subst once twice.
  destruct (toggleLabel_result held labelId t w)
    as (e1 & r1 & Hu1 & Hm1 & Hr1 & Hnone1 & Hw1).
  destruct (toggleLabel held labelId t w) as [u1 w1]. cbn [fst snd] in *.
  destruct (toggleLabel_result held labelId u1 w1)
    as (e2 & r2 & Hu2 & Hm2 & Hr2 & Hnone2 & Hw2).
  destruct (toggleLabel held labelId u1 w1) as [u2 w2]. cbn [fst snd] in *.
  assert (Task.labelIds u1 = r1) as Hl1 by (by subst u1).
  assert (Task.labelIds u2 = r2) as Hl2 by (by subst u2).
  assert (r1 <> Task.labelIds t) as Hne1 by congruence.
  assert (r2 <> Task.labelIds t) as Hne2.
  { intros ->. rewrite Hw1, lookup_insert_ne in Hnone2 by done. congruence. }
  assert (readLabels (Task.labelIds t) (arrays w) = stored) as Hread
      by (unfold readLabels; by rewrite Hstored).
  assert (arrays w2 !! Task.labelIds t = arrays w !! Task.labelIds t) as Hkept.
  { rewrite Hw2, lookup_insert_ne by done.
    by rewrite Hw1, lookup_insert_ne by done. }
  assert (forall id, id ∈ readLabels (Task.labelIds u2) (arrays w2)
                     <-> id ∈ readLabels (Task.labelIds t) (arrays w))
    as Hmembers.
  { assert (readLabels r1 (arrays w1)
            = if bool_decide (labelId ∈ stored)
              then List.filter (fun id => bool_decide (id <> labelId)) stored
              else stored ++ [labelId]) as Hread1.
    { unfold readLabels at 1. rewrite Hw1, lookup_insert_eq.
      by rewrite Hread. }
    assert (readLabels r2 (arrays w2)
            = if bool_decide (labelId ∈ readLabels r1 (arrays w1))
              then List.filter (fun id => bool_decide (id <> labelId))
                     (readLabels r1 (arrays w1))
              else readLabels r1 (arrays w1) ++ [labelId]) as Hread2.
    { unfold readLabels at 1. rewrite Hw2, lookup_insert_eq.
      by rewrite Hl1. }
    intros id. rewrite Hl2, Hread2, Hread1, Hread. clear.
    destruct (decide (labelId ∈ stored)) as [Hin | Hin].
    - rewrite (bool_decide_eq_true_2 _ Hin).
      rewrite bool_decide_eq_false_2.
      + rewrite elem_of_app, List_filter_elem_of, bool_decide_eq_true,
          list_elem_of_singleton.
        destruct (decide (id = labelId)) as [-> | Hne]; tauto.
      + intros [_ Hne]%List_filter_elem_of.
        by apply bool_decide_eq_true_1 in Hne.
    - rewrite (bool_decide_eq_false_2 _ Hin).
      rewrite bool_decide_eq_true_2
        by (apply elem_of_app; right; by apply list_elem_of_singleton).
      rewrite List_filter_elem_of, bool_decide_eq_true, elem_of_app,
        list_elem_of_singleton.
      split; [tauto |]. intros H. split; [by left | congruence]. }
  split; [exact Hkept |]. split; [exact Hmembers |].
  assert (Task.logs u2 = Task.logs t ++ [e1; e2]) as Hlogs.
  { subst u2 u1. cbn. by rewrite <- app_assoc. }
  assert (agreeBesidesTitle t u2 (arrays w2)) as Hagree.
  { unfold agreeBesidesTitle. subst u2 u1. cbn.
    split_and!; try reflexivity; try done.
    intros id. specialize (Hmembers id). cbn in Hmembers.
    rewrite Hmembers. unfold readLabels. by rewrite Hkept. }
  unfold handleUpdateTask.
  eexists. split; [by apply mapM_M_lookup |]. cbv beta.
  rewrite bool_decide_eq_true_2 by (subst u2 u1; done).
  rewrite updateStored_result.
  cbn [Task.with_logs Task.with_completed_logs Task.logs].
  rewrite (keptLogs_placeholders t u2 [e1; e2] Hlogs)
    by (repeat constructor; done).
  rewrite app_nil_l, fmap_app.
  rewrite <- (app_nil_r (TaskLog.message <$> Task.logs t)) at 2. f_equal.
  unfold synthesizedLogs.
  rewrite diffLogs_agreeBesidesTitle.
  - unfold diffTitle. rewrite bool_decide_eq_false_2; [done |].
    subst u2 u1. cbn. intros H. by apply H.
  - eapply agreeBesidesTitle_Permutation; [| exact Hagree].
    intros r. unfold Date_now. cbn [snd arrays].
    apply (handleUpdateTask_arrays_Permutation toLocaleDateString lists labels
             u2 (take i prev) w2 r).
Qed.

End ModalEdits.

(** * A new task and the view it was added in *)

Section AddedShown.
Variable LocalTZA : Z.
Variable localeCompare : string -> string -> Z.

Lemma handleAddTask_head (activeView : string) (p : PartialTask.t)
    (prev : list Task.t) (w : World) :
  plainPartial p ->
  exists newTask,
    fst (handleAddTask activeView p prev w) = newTask :: prev
    /\ Task.completed newTask = false
    /\ Task.listId newTask
       = (if addsToInbox activeView then "inbox" else activeView)
    /\ readLabels (Task.labelIds newTask)
         (arrays (snd (handleAddTask activeView p prev w))) = [].
Proof.
  intros (Hid & Hlist & Hc & Hrem & Hsub & Hrec & Hlab & Hatt & Hlogs).
  unfold handleAddTask, mbind, M_bind, mret, M_ret, randomUUID, Date_now,
    newArray. cbn [fst snd arrays uuid_of uuid_next clock_of clock_next].
  eexists. split; [reflexivity |].
  cbn [spreadPartial Task.completed Task.listId Task.labelIds].
  rewrite Hlist, Hc, Hlab. cbn [default]. split_and!; try reflexivity.
  unfold readLabels. by rewrite lookup_insert_eq.
Qed.

(** X29.  A task added from the smart input shows at once in the view it
    was added in when that view is the inbox or a custom list.  Added
    while a label's view is open it does not show there: it gets no
    label, and the label's id for its list. *)
Theorem handleAddTask_shown_in_view (activeView : string) (p : PartialTask.t)
    (prev : list Task.t) (w : World) (labels : list Label.t)
    (searchQuery : string) (sortBy : SortOption) (now : Z) :
  plainPartial p ->
  activeView ∉ reservedViews ->
  exists newTask,
    fst (handleAddTask activeView p prev w) = newTask :: prev
    /\ let shown :=
         filteredTasks LocalTZA localeCompare
           (fst (handleAddTask activeView p prev w)) labels
           (arrays (snd (handleAddTask activeView p prev w)))
           activeView searchQuery sortBy now in
       (activeView ∉ Label.id <$> labels -> newTask ∈ shown)
       /\ (activeView ∈ Label.id <$> labels ->
           (newTask ∉ shown)
           /\ (activeView <> "inbox" -> Task.listId newTask = activeView)).
Proof.
  intros Hplain Hres.
  destruct (handleAddTask_head activeView p prev w Hplain)
    as (newTask & Hout & Hc & Hlist & Hread).
  exists newTask. split; [exact Hout |]. rewrite Hout. cbv zeta.
  set (store := arrays (snd (handleAddTask activeView p prev w))) in *.
  assert (activeView <> "inbox" -> addsToInbox activeView = false) as Hadds.
  { intros Hne. unfold reservedViews in Hres.
    rewrite !not_elem_of_cons in Hres.
    destruct Hres as (H1 & H2 & H3 & H4 & H5 & H6 & _).
    unfold addsToInbox.
    by rewrite !bool_decide_eq_false_2 by done. }
  split.
  - intros Hlab.
    rewrite (filteredTasks_list_view LocalTZA localeCompare _ labels store
               activeView) by done.
    apply List_filter_elem_of. split; [by left |].
    unfold inList. rewrite Hc, Hlist. cbn [negb]. rewrite andb_true_r.
    apply bool_decide_eq_true_2.
    destruct (decide (activeView = "inbox")) as [-> | Hne]; [done |].
    by rewrite Hadds.
  - intros Hlab. split.
    + unfold filteredTasks, reservedViews in *.
      rewrite !not_elem_of_cons in Hres.
      destruct Hres as (H1 & H2 & H3 & H4 & H5 & H6 & _).
      rewrite (bool_decide_eq_false_2 (activeView = "activity")) by done.
      rewrite (bool_decide_eq_false_2 (activeView = "search")) by done.
      rewrite existsb_label_id, (bool_decide_eq_true_2 _ Hlab).
      rewrite Array_sort_Permutation.
      intros [_ Hkeep]%List_filter_elem_of.
      apply andb_true_iff in Hkeep as [Hin _].
      apply bool_decide_eq_true_1 in Hin. rewrite Hread in Hin.
      by apply not_elem_of_nil in Hin.
    + intros Hne. by rewrite Hlist, Hadds.
Qed.

End AddedShown.

(** * The further statements at the sample data *)



(** Sorted by priority, the High task is before the Medium one. *)
Lemma filteredTasks_mode_order_witness :
  (Task.completed plainTask = true -> Task.completed mediumDue = true)
  /\ (Task.completed plainTask = Task.completed mediumDue ->
      modeOrder priority plainTask mediumDue).
Proof.
  apply (filteredTasks_mode_order 0 compareStrings sortSample [] ∅ "all"
           EmptyString priority 0 0%nat 1%nat plainTask mediumDue).
  - discriminate.
  - vm_compute. reflexivity.
  - vm_compute. reflexivity.
  - lia.
Defined.

(** After the tick at 10 the one reminder still unfired is due at 100. *)
Lemma reminderTick_none_left_due_witness :
  (forall r, r ∈ Task.reminders tickedThree ->
             Reminder.fired r = false -> 10 < Reminder.time r)
  /\ (hasActiveReminders tickedThree = true ->
      exists r, r ∈ Task.reminders tickedThree
                /\ Reminder.fired r = false /\ 10 < Reminder.time r).
Proof.
  apply (reminderTick_none_left_due 10 true [threeReminders] tickedThree).
  - apply list_elem_of_In. vm_compute. left. reflexivity.
  - reflexivity.
Defined.

Lemma handlers_keep_ids_distinct_witness :
  (uuid_of sampleWorld (S (uuid_next sampleWorld))
     ∉ Task.id <$> [weeklyTask; plainTask] ->
   NoDup (Task.id <$>
          fst (handleToggleTask 0 "A" [weeklyTask; plainTask] sampleWorld)))
  /\ NoDup (Task.id <$>
            fst (handleUpdateTask sampleLocaleDate [] [] renamedReport
                   [weeklyTask; plainTask] sampleWorld))
  /\ NoDup (Task.id <$> handleDeleteTask "A" [weeklyTask; plainTask]).
Proof.
  apply (handlers_keep_ids_distinct 0 sampleLocaleDate [] [] "A" renamedReport
           [weeklyTask; plainTask] sampleWorld).
  apply (bool_decide_unpack _). vm_compute. exact I.
Defined.



Lemma handleAddTask_then_delete_witness :
  handleDeleteTask (uuid_of sampleWorld (uuid_next sampleWorld))
    (fst (handleAddTask "inbox" (fallbackPartial "Buy milk" 1700000000123)
            [weeklyTask; plainTask] sampleWorld))
  = [weeklyTask; plainTask].
Proof.
  apply (handleAddTask_then_delete "inbox"
           (fallbackPartial "Buy milk" 1700000000123) [weeklyTask; plainTask]
           sampleWorld).
  - reflexivity.
  - apply (bool_decide_unpack _). vm_compute. exact I.
Defined.

(** Two edits of the report in the modal, then a save. *)
Lemma modal_save_drops_placeholders_witness :
  let snapshot :=
    fst (modalSession [partialSubtasks []; PartialTask.empty] reportTask
           sampleWorld) in
  length (Task.logs snapshot) = (length (Task.logs reportTask) + 2)%nat
  /\ exists t',
       fst (handleUpdateTask sampleLocaleDate [] [] snapshot [reportTask]
              sampleWorld) !! 0%nat = Some t'
       /\ Task.logs t'
          = Task.logs reportTask
            ++ synthesizedLogs sampleLocaleDate [] [] reportTask snapshot
                 (snd (handleUpdateTask sampleLocaleDate [] [] snapshot
                         (take 0 [reportTask]) sampleWorld)).
Proof.
  apply (modal_save_drops_placeholders sampleLocaleDate [] []
           [partialSubtasks []; PartialTask.empty] sampleWorld [reportTask]
           sampleWorld 0%nat reportTask).
  - reflexivity.
  - repeat constructor.
Defined.

(** Deleting the label "urgent": both tasks get a new array. *)
Lemma handleDeleteLabel_fresh_arrays_witness :
  exists tasks' store',
    handleDeleteLabel "urgent" [urgentLabel] [weeklyTask; plainTask]
      (arrays labelledWorld) "urgent"
    = (List.filter (fun l => bool_decide (Label.id l <> "urgent"))
         [urgentLabel],
       Some (tasks', store'),
       if bool_decide ("urgent" = "urgent") then "inbox" else "urgent")
    /\ length tasks' = length [weeklyTask; plainTask]
    /\ (forall i t, [weeklyTask; plainTask] !! i = Some t ->
          exists t', tasks' !! i = Some t'
            /\ t' = setLabelIds t (Task.labelIds t')
            /\ readLabels (Task.labelIds t') store'
               = List.filter (fun lid => bool_decide (lid <> "urgent"))
                   (readLabels (Task.labelIds t) (arrays labelledWorld))
            /\ ("urgent" ∉ readLabels (Task.labelIds t') store')
            /\ (Task.labelIds t' ∉ labelRefs [weeklyTask; plainTask]))
    /\ NoDup (Task.labelIds <$> tasks')
    /\ (forall r, is_Some (arrays labelledWorld !! r) ->
                  store' !! r = arrays labelledWorld !! r).
Proof.
  apply (handleDeleteLabel_fresh_arrays "urgent" [urgentLabel]
           [weeklyTask; plainTask] (arrays labelledWorld) "urgent").
  repeat constructor; eexists; vm_compute; reflexivity.
Defined.

(** The count of the list "work" is the length of its view. *)
Lemma taskCounts_match_views_witness :
  taskCounts 0 sortSample [workList] [urgentLabel] (arrays labelledWorld) 0
    !! "work"
  = if bool_decide ("work" ∈ countKeys [workList] [urgentLabel])
    then Some (length (filteredTasks 0 compareStrings sortSample [urgentLabel]
                         (arrays labelledWorld) "work" EmptyString smart 0))
    else None.
Proof.
  apply (taskCounts_match_views 0 compareStrings sortSample [workList]
           [urgentLabel] (arrays labelledWorld) 0 EmptyString smart "work").
  intros id Hid. apply list_elem_of_In in Hid.
  destruct Hid as [<- | [<- | []]];
    apply (bool_decide_unpack _); vm_compute; exact I.
Defined.

(** The label "design" toggled off and on again on the weekly task. *)
Lemma toggleLabel_twice_saves_quietly_witness :
  let once := toggleLabel ∅ "design" weeklyTask sampleWorld in
  let twice := toggleLabel ∅ "design" (fst once) (snd once) in
  arrays (snd twice) !! Task.labelIds weeklyTask
  = arrays sampleWorld !! Task.labelIds weeklyTask
  /\ (forall id,
        id ∈ readLabels (Task.labelIds (fst twice)) (arrays (snd twice))
        <-> id ∈ readLabels (Task.labelIds weeklyTask) (arrays sampleWorld))
  /\ exists t',
       fst (handleUpdateTask sampleLocaleDate [] [] (fst twice) [weeklyTask]
              (snd twice)) !! 0%nat = Some t'
       /\ TaskLog.message <$> Task.logs t'
          = TaskLog.message <$> Task.logs weeklyTask.
Proof.
  apply (toggleLabel_twice_saves_quietly sampleLocaleDate [] [] ∅ "design"
           [weeklyTask] sampleWorld 0%nat weeklyTask).
  - reflexivity.
  - eexists. vm_compute. reflexivity.
  - constructor.
Defined.

(** A task added while the list "work" is open shows in that list. *)
Lemma handleAddTask_shown_in_view_witness :
  exists newTask,
    fst (handleAddTask "work" (fallbackPartial "Buy milk" 1700000000123)
           [plainTask] sampleWorld)
    = newTask :: [plainTask]
    /\ let shown :=
         filteredTasks 0 compareStrings
           (fst (handleAddTask "work"
                   (fallbackPartial "Buy milk" 1700000000123) [plainTask]
                   sampleWorld))
           [urgentLabel]
           (arrays (snd (handleAddTask "work"
                           (fallbackPartial "Buy milk" 1700000000123)
                           [plainTask] sampleWorld)))
           "work" EmptyString smart 0 in
       ("work" ∉ Label.id <$> [urgentLabel] -> newTask ∈ shown)
       /\ ("work" ∈ Label.id <$> [urgentLabel] ->
           (newTask ∉ shown)
           /\ ("work" <> "inbox" -> Task.listId newTask = "work")).
Proof.
  apply (handleAddTask_shown_in_view 0 compareStrings "work"
           (fallbackPartial "Buy milk" 1700000000123) [plainTask] sampleWorld
           [urgentLabel] EmptyString smart 0).
  - unfold plainPartial. split_and!; reflexivity.
  - apply (bool_decide_unpack _). vm_compute. exact I.
Defined.

(** * The new task at the sample data *)

(** The fallback of the smart input under the view "today": the task is
    filed under the inbox, with the creation time the input gave. *)
Example handleAddTask_fallback_sample :
  (fun t => (Task.id t, Task.listId t, Task.title t, Task.createdAt t,
             TaskLog.message <$> Task.logs t))
  <$> fst (handleAddTask "today" (fallbackPartial "Buy milk" 1700000000123)
             [] sampleWorld)
  = [("uuid-a", "inbox", "Buy milk", 1700000000123, ["Task created"])].
Proof. vm_compute. reflexivity. Qed.

(** An entry stamped at 23:59 on 2024-02-29 is in "Yesterday" on
    2024-03-01, and one of 2024-02-28 under its date. *)
Example groupKeyOf_sample :
  (fun ts =>
     groupKeyOf 0 sampleLocaleDate (Date_UTC 2024 2 1 + 1000)
       (activityItem plainTask
          {| TaskLog.id := "log-1"; TaskLog.timestamp := ts;
             TaskLog.message := "Task created" |}))
  <$> [Date_UTC 2024 2 1; Date_UTC 2024 2 1 - 60000; Date_UTC 2024 1 28]
  = ["Today"; "Yesterday"; "day 19781"].
Proof. vm_compute. reflexivity. Qed.
